(** * Transaction core of the OCPP 1.6 charge point

    A shallow embedding of [src/chargepoint/transaction/TransactionManager.cpp]:
    local start and stop of a transaction, the handlers of the remote start
    and remote stop requests, and the drainer of the transaction FIFO
    ([processFifoRequest]).

    The member functions of [TransactionManager] are written in a state
    monad over a record [World] that holds the objects the class refers to
    (connectors, connector table of the database, requests FIFO, retry
    counter, retry timer) together with the link state, and a log of the
    calls made to the collaborators. What the collaborators answer is read
    from a record of functions, [Collaborators].

    The model is sequential: a member function runs to its end. The link
    may go up or down during a call of the message sender (the outcome of
    the call says how it is left); the registration status changes
    between calls of the manager. *)

From Stdlib Require Import ZArith NArith.
From stdpp Require Import base decidable option list strings gmap.

Open Scope Z_scope.
Open Scope string_scope.
Open Scope list_scope.
Open Scope nat_scope.

(** ** OCPP types *)

Module AuthorizationStatus.
Inductive t := Accepted | Blocked | Expired | Invalid | ConcurrentTx.
#[global] Instance eq_dec : EqDecision t.
Proof. solve_decision. Defined.
End AuthorizationStatus.

Module ChargePointStatus.
Inductive t :=
| Available | Preparing | Charging | SuspendedEV | SuspendedEVSE
| Finishing | Reserved | Unavailable | Faulted.
#[global] Instance eq_dec : EqDecision t.
Proof. solve_decision. Defined.
End ChargePointStatus.

Module RegistrationStatus.
Inductive t := Accepted | Pending | Rejected.
#[global] Instance eq_dec : EqDecision t.
Proof. solve_decision. Defined.
End RegistrationStatus.

Module RemoteStartStopStatus.
Inductive t := Accepted | Rejected.
#[global] Instance eq_dec : EqDecision t.
Proof. solve_decision. Defined.
End RemoteStartStopStatus.

Module Reason.
Inductive t :=
| EmergencyStop | EVDisconnected | HardReset | Local | Other | PowerLoss
| Reboot | Remote | SoftReset | UnlockCommand | DeAuthorized.
#[global] Instance eq_dec : EqDecision t.
Proof. solve_decision. Defined.
End Reason.

Module CallResult.
Inductive t := Ok | Failed.
#[global] Instance eq_dec : EqDecision t.
Proof. solve_decision. Defined.
End CallResult.

(** [DateTime]: UTC time in seconds; [connector->transaction_start = 0]
    clears it. *)
Definition DateTime := Z.

(** Structures of the protocol that the transaction manager only carries
    around are kept as their JSON text. *)
Inductive MeterValue := MkMeterValue (json : string).
Inductive ChargingProfile := MkChargingProfile (json : string).

#[global] Instance MeterValue_eq_dec : EqDecision MeterValue.
Proof. solve_decision. Defined.
#[global] Instance ChargingProfile_eq_dec : EqDecision ChargingProfile.
Proof. solve_decision. Defined.

Module IdTagInfo.
Record t := {
  status : AuthorizationStatus.t;
  expiryDate : option DateTime;
  parentIdTag : option string }.
#[global] Instance eq_dec : EqDecision t.
Proof. solve_decision. Defined.
End IdTagInfo.

Module StartTransactionReq.
Record t := {
  connectorId : nat;
  idTag : string;
  meterStart : Z;
  reservationId : option Z;
  timestamp : DateTime }.
#[global] Instance eq_dec : EqDecision t.
Proof. solve_decision. Defined.

Definition set_reservationId (v : Z) (r : t) : t :=
  {| connectorId := connectorId r; idTag := idTag r;
     meterStart := meterStart r; reservationId := Some v;
     timestamp := timestamp r |}.
End StartTransactionReq.

Module StartTransactionConf.
Record t := {
  idTagInfo : IdTagInfo.t;
  transactionId : Z }.
#[global] Instance eq_dec : EqDecision t.
Proof. solve_decision. Defined.
End StartTransactionConf.

Module StopTransactionReq.
Record t := {
  idTag : option string;
  meterStop : Z;
  timestamp : DateTime;
  transactionId : Z;
  reason : Reason.t;
  transactionData : list MeterValue }.
#[global] Instance eq_dec : EqDecision t.
Proof. solve_decision. Defined.
End StopTransactionReq.

Module StopTransactionConf.
Record t := { idTagInfo : option IdTagInfo.t }.
#[global] Instance eq_dec : EqDecision t.
Proof. solve_decision. Defined.
End StopTransactionConf.

Module RemoteStartTransactionReq.
Record t := {
  connectorId : option nat;
  idTag : string;
  chargingProfile : option ChargingProfile }.
End RemoteStartTransactionReq.

Module RemoteStopTransactionReq.
Record t := { transactionId : Z }.
End RemoteStopTransactionReq.

(** Names of the actions ([START_TRANSACTION_ACTION] and the like). *)
Definition START_TRANSACTION_ACTION : string := "StartTransaction".
Definition STOP_TRANSACTION_ACTION : string := "StopTransaction".
Definition METER_VALUES_ACTION : string := "MeterValues".

(** The JSON document of a request: the serialisation of one of the
    requests this core knows, or any other text. *)
Inductive Payload :=
| PStartTransaction (req : StartTransactionReq.t)
| PStopTransaction (req : StopTransactionReq.t)
| PMeterValues (json : string)
| PRaw (json : string).

#[global] Instance Payload_eq_dec : EqDecision Payload.
Proof. solve_decision. Defined.

(** ** Connectors *)

Module Connector.
Record t := {
  id : nat;
  status : ChargePointStatus.t;
  transaction_id : Z;
  transaction_start : DateTime;
  transaction_id_tag : string;
  reservation_id : Z }.
#[global] Instance eq_dec : EqDecision t.
Proof. solve_decision. Defined.

(** The three assignments made under the connector's mutex. *)
Definition set_transaction (tid : Z) (start : DateTime) (tag : string)
    (c : t) : t :=
  {| id := id c; status := status c;
     transaction_id := tid; transaction_start := start;
     transaction_id_tag := tag; reservation_id := reservation_id c |}.

Definition set_reservation (sr : ChargePointStatus.t * Z) (c : t) : t :=
  {| id := id c; status := sr.1;
     transaction_id := transaction_id c;
     transaction_start := transaction_start c;
     transaction_id_tag := transaction_id_tag c; reservation_id := sr.2 |}.
End Connector.

Module Connectors.
Definition CONNECTOR_ID_CHARGE_POINT : nat := 0.

(** Modelled from the spec: the container [Connectors] (its code is not
    part of the sources at hand), [get(id)], [save(id)], [list()]. The
    connectors are a sequence; [getConnector] yields the position of the
    first connector that bears the id, which stands for the pointer the
    C++ function returns, and the record found there. *)
Definition getConnector (cs : list Connector.t) (cid : nat)
    : option (nat * Connector.t) :=
  list_find (λ c, Connector.id c = cid) cs.
End Connectors.

Arguments Connectors.getConnector : simpl never.

(** ** The transaction FIFO and the timer *)

Record FifoEntry := { action : string; payload : Payload }.

#[global] Instance FifoEntry_eq_dec : EqDecision FifoEntry.
Proof. solve_decision. Defined.

(** The interval a timer is restarted with, as the code writes it:
    [std::chrono::milliseconds(250u)] or [std::chrono::seconds(...)]. *)
Inductive Duration := Milliseconds (n : N) | Seconds (n : N).

#[global] Instance Duration_eq_dec : EqDecision Duration.
Proof. solve_decision. Defined.

(** ** Calls to the collaborators *)

(** What one [m_msg_sender.call] yields: the result, the response (read as
    a [StartTransactionConf] or as a [StopTransactionConf] by the caller)
    and the state of the link when the call returns. *)
Record NetOutcome := {
  result : CallResult.t;
  start_conf : StartTransactionConf.t;
  stop_conf : StopTransactionConf.t;
  connected_after : bool }.

Inductive Event :=
| EvCall (action : string) (payload : Payload) (with_fifo : bool)
         (link_up : bool) (registration : RegistrationStatus.t)
| EvFifoPush (e : FifoEntry)
| EvFifoPop
| EvSaveConnector (c : Connector.t)
| EvAuthentUpdate (id_tag : string) (info : IdTagInfo.t)
| EvClearReservation (connector_id : nat)
| EvAssignPendingTxProfiles (connector_id : nat) (transaction_id : Z)
| EvStartSampledMeterValues (connector_id : nat)
| EvStopSampledMeterValues (connector_id : nat)
| EvClearTxProfiles (connector_id : nat)
| EvInstallTxProfile (connector_id : nat) (profile : ChargingProfile)
| EvRemoteStartTransactionRequested (connector_id : nat) (id_tag : string)
| EvRemoteStopTransactionRequested (connector_id : nat)
| EvTransactionDeAuthorized (connector_id : nat)
| EvTimerRestart (interval : Duration).

#[global] Instance Event_eq_dec : EqDecision Event.
Proof. solve_decision. Defined.

(** The collaborators of the transaction manager, as a record of
    functions. Their code is outside [TransactionManager.cpp]; every
    theorem below holds whatever they answer. *)
Record Collaborators := {
  (** [ReservationManager::isTransactionAllowed], which reads the
      connectors. *)
  isTransactionAllowed :
    list Connector.t → nat → string → AuthorizationStatus.t;
  (** Modelled from the spec: [ReservationManager::clearReservation]
      "clears the reservation"; the status and reservation id it leaves on
      the connector are those this function gives. *)
  reservationCleared : Connector.t → ChargePointStatus.t * Z;
  (** [IChargePointEventsHandler]; the meter is read at a given time. *)
  getTxStartStopMeterValue : nat → nat → Z;
  remoteStartTransactionRequested : nat → string → bool;
  remoteStopTransactionRequested : nat → bool;
  (** [ISmartChargingManager], [IMeterValuesManager] *)
  installTxProfile : nat → ChargingProfile → bool;
  getTxStopMeterValues : nat → list MeterValue;
  (** [IOcppConfig] *)
  transactionMessageAttempts : N;
  transactionMessageRetryInterval : N;
  reserveConnectorZeroSupported : bool;
  (** [DateTime::now()]: the value of the n-th reading of the clock. *)
  now : nat → DateTime;
  (** The network: the outcome of the n-th [m_msg_sender.call]. *)
  net : nat → NetOutcome;
  (** [IdToken::assign], a string of at most 20 characters built from a
      [std::string]; and the request [fromJson] leaves when the document
      is not a StartTransaction request. Neither is declared in the
      sources at hand. *)
  IdToken_assign : string → string;
  StartTransactionReq_default : StartTransactionReq.t }.

(** ** The state *)

(** [connectors] is [m_connectors] in memory and [database] the connector
    table written by [saveConnector]; [connected] is what
    [m_msg_sender.isConnected()] answers and [registration_status] what
    [m_status_manager.getRegistrationStatus()] answers; [calls] and
    [ticks] count the calls of the message sender and the readings of the
    clock made so far; [trace] is the log of the calls to the
    collaborators, oldest first. *)
Record World := {
  connectors : list Connector.t;
  database : gmap nat Connector.t;
  requests_fifo : list FifoEntry;
  (** Modelled from the spec: "RetryCounter: a single non-negative
      integer"; the member is declared in [TransactionManager.h]. *)
  request_retry_count : N;
  (** [Some d] while the timer is started with interval [d]. *)
  request_retry_timer : option Duration;
  connected : bool;
  registration_status : RegistrationStatus.t;
  calls : nat;
  ticks : nat;
  trace : list Event }.

Definition set_connectors (v : list Connector.t) (w : World) : World :=
  {| connectors := v; database := database w;
     requests_fifo := requests_fifo w;
     request_retry_count := request_retry_count w;
     request_retry_timer := request_retry_timer w;
     connected := connected w; registration_status := registration_status w;
     calls := calls w; ticks := ticks w; trace := trace w |}.

Definition set_database (v : gmap nat Connector.t) (w : World) : World :=
  {| connectors := connectors w; database := v;
     requests_fifo := requests_fifo w;
     request_retry_count := request_retry_count w;
     request_retry_timer := request_retry_timer w;
     connected := connected w; registration_status := registration_status w;
     calls := calls w; ticks := ticks w; trace := trace w |}.

Definition set_requests_fifo (v : list FifoEntry) (w : World) : World :=
  {| connectors := connectors w; database := database w;
     requests_fifo := v;
     request_retry_count := request_retry_count w;
     request_retry_timer := request_retry_timer w;
     connected := connected w; registration_status := registration_status w;
     calls := calls w; ticks := ticks w; trace := trace w |}.

Definition set_request_retry_count (v : N) (w : World) : World :=
  {| connectors := connectors w; database := database w;
     requests_fifo := requests_fifo w;
     request_retry_count := v;
     request_retry_timer := request_retry_timer w;
     connected := connected w; registration_status := registration_status w;
     calls := calls w; ticks := ticks w; trace := trace w |}.

Definition set_request_retry_timer (v : option Duration) (w : World) : World :=
  {| connectors := connectors w; database := database w;
     requests_fifo := requests_fifo w;
     request_retry_count := request_retry_count w;
     request_retry_timer := v;
     connected := connected w; registration_status := registration_status w;
     calls := calls w; ticks := ticks w; trace := trace w |}.

Definition set_connected (v : bool) (w : World) : World :=
  {| connectors := connectors w; database := database w;
     requests_fifo := requests_fifo w;
     request_retry_count := request_retry_count w;
     request_retry_timer := request_retry_timer w;
     connected := v; registration_status := registration_status w;
     calls := calls w; ticks := ticks w; trace := trace w |}.

Definition set_registration_status (v : RegistrationStatus.t) (w : World)
    : World :=
  {| connectors := connectors w; database := database w;
     requests_fifo := requests_fifo w;
     request_retry_count := request_retry_count w;
     request_retry_timer := request_retry_timer w;
     connected := connected w; registration_status := v;
     calls := calls w; ticks := ticks w; trace := trace w |}.

Definition set_calls (v : nat) (w : World) : World :=
  {| connectors := connectors w; database := database w;
     requests_fifo := requests_fifo w;
     request_retry_count := request_retry_count w;
     request_retry_timer := request_retry_timer w;
     connected := connected w; registration_status := registration_status w;
     calls := v; ticks := ticks w; trace := trace w |}.

Definition set_ticks (v : nat) (w : World) : World :=
  {| connectors := connectors w; database := database w;
     requests_fifo := requests_fifo w;
     request_retry_count := request_retry_count w;
     request_retry_timer := request_retry_timer w;
     connected := connected w; registration_status := registration_status w;
     calls := calls w; ticks := v; trace := trace w |}.

Definition set_trace (v : list Event) (w : World) : World :=
  {| connectors := connectors w; database := database w;
     requests_fifo := requests_fifo w;
     request_retry_count := request_retry_count w;
     request_retry_timer := request_retry_timer w;
     connected := connected w; registration_status := registration_status w;
     calls := calls w; ticks := ticks w; trace := v |}.

(** ** The state monad *)

Definition St (A : Type) : Type := World → A * World.

#[global] Instance St_ret : MRet St := λ A (a : A) w, (a, w).
#[global] Instance St_bind : MBind St :=
  λ A B (f : A → St B) (m : St A) w, let '(a, w') := m w in f a w'.

Definition gets {A} (f : World → A) : St A := λ w, (f w, w).
Definition modify (f : World → World) : St unit := λ w, (tt, f w).
Definition log (e : Event) : St unit :=
  modify (λ w, set_trace (trace w ++ [e]) w).
Definition when (b : bool) (m : St unit) : St unit :=
  if b then m else mret tt.

(** ** Reading the log *)

Definition is_pop (e : Event) : bool :=
  match e with EvFifoPop => true | _ => false end.

Definition is_send (e : Event) : bool :=
  match e with EvCall _ _ _ _ _ => true | _ => false end.

(** The drainer is the only caller of [m_msg_sender.call] that gives no
    FIFO to it. *)
Definition is_drainer_send (e : Event) : bool :=
  match e with EvCall _ _ false _ _ => true | _ => false end.

Definition is_de_authorized (e : Event) : bool :=
  match e with EvTransactionDeAuthorized _ => true | _ => false end.

Definition is_remote_start_requested (e : Event) : bool :=
  match e with EvRemoteStartTransactionRequested _ _ => true | _ => false end.

Fixpoint count_events (f : Event → bool) (evs : list Event) : nat :=
  match evs with
  | [] => 0
  | e :: evs => (if f e then 1 else 0) + count_events f evs
  end.

(** A call is gated when the link was up and the charge point registered
    at the moment it was made. *)
Definition gated (e : Event) : Prop :=
  match e with
  | EvCall _ _ _ up registration =>
      up = true ∧ registration = RegistrationStatus.Accepted
  | _ => True
  end.

(** Reading a log from its start: the number of sends of the drainer
    since the last pop, and whether that number stayed within [bound]
    all along. *)
Definition scan_step (bound : nat) (s : nat * bool) (e : Event) : nat * bool :=
  if is_pop e then (0, s.2)
  else if is_drainer_send e then (S s.1, s.2 && bool_decide (S s.1 ≤ bound))
  else s.

Definition scan (bound : nat) (evs : list Event) : nat * bool :=
  fold_left (scan_step bound) evs (0, true).

(** An effect that leaves the drainer alone: the retry counter is the
    same, and the log grows by events that are neither a pop nor a send of
    the drainer. *)
Definition aside (e : Event) : Prop :=
  is_pop e = false ∧ is_drainer_send e = false.

Definition quiet (w w' : World) : Prop :=
  request_retry_count w' = request_retry_count w
  ∧ ∃ evs, trace w' = trace w ++ evs ∧ Forall aside evs.

Definition preserves {A} (R : World → World → Prop) (m : St A) : Prop :=
  ∀ w, R w (m w).2.

Definition is_clear_reservation (e : Event) : Prop :=
  ∃ connector_id, e = EvClearReservation connector_id.

(** Connectors that differ at most by what [clearReservation] assigned. *)
Definition reservation_touched (cs cs' : list Connector.t) : Prop :=
  Forall2 (λ c c', c' = c ∨ ∃ sr, c' = Connector.set_reservation sr c) cs cs'.

(** What may happen to a transaction manager: calls from the application,
    requests from the central system, the job [processFifoRequest] run by
    the worker pool, changes of the link and of the registration, the
    charge point reporting the state of the link, the retry timer firing,
    and the meter values manager queuing a request in the FIFO it was
    given. *)
Inductive Op :=
| OpStartTransaction (connector_id : nat) (id_tag : string)
| OpStopTransaction (connector_id : nat) (id_tag : string) (reason : Reason.t)
| OpRemoteStartTransaction (request : RemoteStartTransactionReq.t)
| OpRemoteStopTransaction (request : RemoteStopTransactionReq.t)
| OpProcessFifoRequest
| OpLinkChanged (up : bool)
| OpUpdateConnectionStatus (is_connected : bool)
| OpRegistrationChanged (status : RegistrationStatus.t)
| OpRetryTimerFired
| OpMeterValuesQueued (json : string).

(** The state the constructor leaves: the connectors and the FIFO are
    those of the database, the retry counter is 0, the timer is stopped. *)
Definition TransactionManager_new (cs : list Connector.t)
    (db : gmap nat Connector.t) (fifo : list FifoEntry) (up : bool)
    (registration : RegistrationStatus.t) : World :=
  {| connectors := cs; database := db; requests_fifo := fifo;
     request_retry_count := 0; request_retry_timer := None;
     connected := up; registration_status := registration;
     calls := 0; ticks := 0; trace := [] |}.

(** ** The member functions *)

Section TransactionManager.
Context (env : Collaborators).

(** *** Objects the manager refers to *)

(** [m_connectors.getConnector(id)]: null, or a pointer (a position in
    the sequence) together with the record it points to at this moment. *)
Definition getConnector (cid : nat) : St (option (nat * Connector.t)) :=
  gets (λ w, Connectors.getConnector (connectors w) cid).

(** Reading [*connector] again through a pointer got from
    [getConnector], after the object may have been assigned to. The
    second argument is the record the lookup found; a pointer got from
    [getConnector] always finds a record, so it is never what is read. *)
Definition deref (p : nat) (found : Connector.t) : St Connector.t :=
  gets (λ w, default found (connectors w !! p)).

(** Assigning fields of [*connector]. *)
Definition mutate (p : nat) (f : Connector.t → Connector.t) : St unit :=
  modify (λ w, set_connectors (alter f p (connectors w)) w).

(** Modelled from the spec: [Connectors::saveConnector(id)], "save must
    durably commit the record before returning": the record of the
    connector goes to the connector table of the database. *)
Definition saveConnector (cid : nat) : St unit :=
  λ w, match Connectors.getConnector (connectors w) cid with
       | Some (_, c) =>
           (tt, set_trace (trace w ++ [EvSaveConnector c])
                  (set_database (<[cid := c]> (database w)) w))
       | None => (tt, w)
       end.

Definition reservation_isTransactionAllowed (cid : nat) (id_tag : string)
    : St AuthorizationStatus.t :=
  gets (λ w, isTransactionAllowed env (connectors w) cid id_tag).

(** Modelled from the spec: [ReservationManager::clearReservation],
    "clear the reservation"; of the connector it changes the status and
    the reservation id, to what [reservationCleared] gives. *)
Definition reservation_clearReservation (cid : nat) : St unit :=
  log (EvClearReservation cid) ;;
  p ← getConnector cid;
  match p with
  | Some (p, _) =>
      mutate p (λ c, Connector.set_reservation (reservationCleared env c) c)
  | None => mret tt
  end.

Definition DateTime_now : St DateTime :=
  λ w, (now env (ticks w), set_ticks (S (ticks w)) w).

Definition events_getTxStartStopMeterValue (cid : nat) : St Z :=
  gets (λ w, getTxStartStopMeterValue env (ticks w) cid).

(** Modelled from the spec: [m_requests_fifo] (its class is not part of
    the sources at hand), "push(action, payload) — append", "front() —
    peek head without removing", "pop() — remove head", "size()". *)
Definition fifo_push (e : FifoEntry) : St unit :=
  modify (λ w, set_requests_fifo (requests_fifo w ++ [e]) w) ;;
  log (EvFifoPush e).

Definition fifo_front : St (option FifoEntry) :=
  gets (λ w, head (requests_fifo w)).

Definition fifo_pop : St unit :=
  modify (λ w, set_requests_fifo (tail (requests_fifo w)) w) ;;
  log EvFifoPop.

Definition fifo_size : St nat := gets (λ w, length (requests_fifo w)).

(** Modelled from the spec: [m_request_retry_timer], a "single-shot
    timer": [restart(interval, true)] starts it with the interval, and
    [isStarted()] holds from then until it fires. *)
Definition timer_restart (d : Duration) : St unit :=
  modify (set_request_retry_timer (Some d)) ;;
  log (EvTimerRestart d).

Definition timer_isStarted : St bool :=
  gets (λ w, bool_decide (is_Some (request_retry_timer w))).

(** Modelled from the spec: the message sender (its code is not part of
    the sources at hand), "call(action, request, response, fifo?) → Ok |
    Failed. When fifo is supplied and the send fails, the sender must
    atomically append (action, serialized-request) to the FIFO." The
    outcome is the next one of the network; the logged event keeps the
    state of the link and of the registration at the moment of the
    call. *)
Definition msg_sender_call (act : string) (pl : Payload) (fifo : bool)
    : St NetOutcome :=
  w ← gets (λ w, w);
  let o := net env (calls w) in
  log (EvCall act pl fifo (connected w) (registration_status w)) ;;
  modify (λ w, set_connected (connected_after o) (set_calls (S (calls w)) w)) ;;
  when (fifo && negb (bool_decide (result o = CallResult.Ok)))
       (fifo_push {| action := act; payload := pl |}) ;;
  mret o.

Definition msg_sender_isConnected : St bool := gets connected.

(** *** startTransaction *)

(** Lines 124-153: the reservation id of the request. *)
Definition check_reservations (connector_id : nat) (id_tag : string)
    (connector : Connector.t) (req : StartTransactionReq.t)
    : St StartTransactionReq.t :=
  if decide (Connector.status connector = ChargePointStatus.Reserved) then
    reservation_clearReservation connector_id ;;
    mret (StartTransactionReq.set_reservationId
            (Connector.reservation_id connector) req)
  else if reserveConnectorZeroSupported env then
    cp ← gets (λ w, snd <$> Connectors.getConnector (connectors w)
                              Connectors.CONNECTOR_ID_CHARGE_POINT);
    match cp with
    | Some charge_point =>
        if decide (Connector.status charge_point
                   = ChargePointStatus.Reserved) then
          allowed ← reservation_isTransactionAllowed
                      Connectors.CONNECTOR_ID_CHARGE_POINT id_tag;
          if decide (allowed = AuthorizationStatus.Accepted) then
            reservation_clearReservation connector_id ;;
            mret (StartTransactionReq.set_reservationId
                    (Connector.reservation_id charge_point) req)
          else mret req
        else mret req
    | None => mret req
    end
  else mret req.

Definition startTransaction (connector_id : nat) (id_tag : string)
    : St AuthorizationStatus.t :=
  if decide (connector_id ≠ 0) then
    p ← getConnector connector_id;
    match p with
    | Some (p, connector) =>
        ret ← reservation_isTransactionAllowed connector_id id_tag;
        if decide (ret = AuthorizationStatus.Accepted) then
          meter ← events_getTxStartStopMeterValue connector_id;
          ts ← DateTime_now;
          start_transaction_req ←
            check_reservations connector_id id_tag connector
              {| StartTransactionReq.connectorId := connector_id;
                 StartTransactionReq.idTag := IdToken_assign env id_tag;
                 StartTransactionReq.meterStart := meter;
                 StartTransactionReq.reservationId := None;
                 StartTransactionReq.timestamp := ts |};
          o ← msg_sender_call START_TRANSACTION_ACTION
                 (PStartTransaction start_transaction_req) true;
          '(ret, transactionId) ←
            (if decide (result o = CallResult.Ok) then
               let info := StartTransactionConf.idTagInfo (start_conf o) in
               let ret := IdTagInfo.status info in
               when (bool_decide (ret ≠ AuthorizationStatus.ConcurrentTx))
                    (log (EvAuthentUpdate id_tag info)) ;;
               mret (ret, StartTransactionConf.transactionId (start_conf o))
             else
               mret (AuthorizationStatus.Accepted, (-1)%Z));
          (if decide (ret = AuthorizationStatus.Accepted) then
             start ← DateTime_now;
             mutate p (Connector.set_transaction transactionId start id_tag) ;;
             c ← deref p connector;
             saveConnector (Connector.id c) ;;
             c ← deref p connector;
             log (EvAssignPendingTxProfiles connector_id
                    (Connector.transaction_id c)) ;;
             log (EvStartSampledMeterValues connector_id)
           else
             o' ← msg_sender_call STOP_TRANSACTION_ACTION
                    (PStopTransaction
                       {| StopTransactionReq.idTag := None;
                          StopTransactionReq.meterStop :=
                            StartTransactionReq.meterStart
                              start_transaction_req;
                          StopTransactionReq.timestamp :=
                            StartTransactionReq.timestamp
                              start_transaction_req;
                          StopTransactionReq.transactionId := transactionId;
                          StopTransactionReq.reason := Reason.DeAuthorized;
                          StopTransactionReq.transactionData := [] |})
                    true;
             mret tt) ;;
          mret ret
        else mret ret
    | None => mret AuthorizationStatus.Invalid
    end
  else mret AuthorizationStatus.Invalid.

(** *** stopTransaction *)

Definition stopTransaction (connector_id : nat) (id_tag : string)
    (reason : Reason.t) : St bool :=
  p ← getConnector connector_id;
  match p with
  | Some (p, connector) =>
      if decide (Connector.transaction_id connector ≠ 0%Z) then
        log (EvStopSampledMeterValues connector_id) ;;
        meter ← events_getTxStartStopMeterValue connector_id;
        ts ← DateTime_now;
        let stop_transaction_req :=
          {| StopTransactionReq.idTag :=
               if decide (id_tag = "") then None
               else Some (IdToken_assign env id_tag);
             StopTransactionReq.meterStop := meter;
             StopTransactionReq.timestamp := ts;
             StopTransactionReq.transactionId :=
               Connector.transaction_id connector;
             StopTransactionReq.reason := reason;
             StopTransactionReq.transactionData :=
               getTxStopMeterValues env connector_id |} in
        mutate p (Connector.set_transaction 0%Z 0%Z "") ;;
        c ← deref p connector;
        saveConnector (Connector.id c) ;;
        o ← msg_sender_call STOP_TRANSACTION_ACTION
               (PStopTransaction stop_transaction_req) true;
        when (bool_decide (result o = CallResult.Ok))
             (match StopTransactionConf.idTagInfo (stop_conf o) with
              | Some info => log (EvAuthentUpdate id_tag info)
              | None => mret tt
              end) ;;
        log (EvClearTxProfiles connector_id) ;;
        mret true
      else mret false
  | None => mret false
  end.

(** *** handleMessage, RemoteStartTransactionReq *)

Definition to_RemoteStartStopStatus (authorized : bool)
    : RemoteStartStopStatus.t :=
  if authorized then RemoteStartStopStatus.Accepted
  else RemoteStartStopStatus.Rejected.

Definition handleMessage_RemoteStartTransactionReq
    (request : RemoteStartTransactionReq.t) : St RemoteStartStopStatus.t :=
  let id_tag := RemoteStartTransactionReq.idTag request in
  authorized ←
    match RemoteStartTransactionReq.connectorId request with
    | Some cid =>
        if decide (cid ≠ Connectors.CONNECTOR_ID_CHARGE_POINT) then
          p ← getConnector cid;
          match p with
          | Some (_, connector) =>
              if decide (Connector.status connector
                         ≠ ChargePointStatus.Unavailable) then
                if decide (Connector.transaction_id connector = 0%Z) then
                  allowed ← reservation_isTransactionAllowed cid id_tag;
                  if decide (allowed = AuthorizationStatus.Accepted) then
                    log (EvRemoteStartTransactionRequested cid id_tag) ;;
                    let authorized :=
                      remoteStartTransactionRequested env cid id_tag in
                    match RemoteStartTransactionReq.chargingProfile request
                    with
                    | Some profile =>
                        if authorized then
                          log (EvInstallTxProfile cid profile) ;;
                          mret (installTxProfile env cid profile)
                        else mret authorized
                    | None => mret authorized
                    end
                  else mret false
                else mret false
              else mret false
          | None => mret false
          end
        else mret false
    | None => mret false
    end;
  mret (to_RemoteStartStopStatus authorized).

(** *** handleMessage, RemoteStopTransactionReq *)

Definition handleMessage_RemoteStopTransactionReq
    (request : RemoteStopTransactionReq.t) : St RemoteStartStopStatus.t :=
  cs ← gets connectors;
  authorized ←
    match list_find
            (λ c, Connector.transaction_id c ≠ 0%Z
                  ∧ Connector.transaction_id c
                    = RemoteStopTransactionReq.transactionId request) cs
    with
    | Some (_, connector) =>
        log (EvRemoteStopTransactionRequested (Connector.id connector)) ;;
        mret (remoteStopTransactionRequested env (Connector.id connector))
    | None => mret false
    end;
  mret (to_RemoteStartStopStatus authorized).

(** *** processFifoRequest *)

(** [StartTransactionReqConverter::fromJson]: the request a document
    holds. *)
Definition StartTransactionReq_fromJson (pl : Payload)
    : StartTransactionReq.t :=
  match pl with
  | PStartTransaction req => req
  | _ => StartTransactionReq_default env
  end.

(** Lines 400-452: the request is sent according to its action. *)
Definition send_request (e : FifoEntry) : St CallResult.t :=
  if decide (action e = START_TRANSACTION_ACTION) then
    o ← msg_sender_call (action e) (payload e) false;
    when (bool_decide (result o = CallResult.Ok))
      (let request := StartTransactionReq_fromJson (payload e) in
       let info := StartTransactionConf.idTagInfo (start_conf o) in
       when (bool_decide (IdTagInfo.status info
                          ≠ AuthorizationStatus.ConcurrentTx))
            (log (EvAuthentUpdate (StartTransactionReq.idTag request) info)) ;;
       when (bool_decide (IdTagInfo.status info
                          ≠ AuthorizationStatus.Accepted))
            (p ← getConnector (StartTransactionReq.connectorId request);
             match p with
             | Some (_, connector) =>
                 when (bool_decide (Connector.transaction_id connector
                                    = (-1)%Z)
                       && bool_decide (Connector.transaction_id_tag connector
                                       = StartTransactionReq.idTag request))
                      (log (EvTransactionDeAuthorized (Connector.id connector)))
             | None => mret tt
             end)) ;;
    mret (result o)
  else if decide (action e = STOP_TRANSACTION_ACTION) then
    o ← msg_sender_call (action e) (payload e) false;
    mret (result o)
  else if decide (action e = METER_VALUES_ACTION) then
    o ← msg_sender_call (action e) (payload e) false;
    mret (result o)
  else mret CallResult.Failed.

(** Lines 453-482: what follows the result of the request. *)
Definition handle_result (res : CallResult.t) : St unit :=
  if decide (res = CallResult.Ok) then
    fifo_pop ;;
    modify (set_request_retry_count 0%N)
  else
    modify (λ w, set_request_retry_count (request_retry_count w + 1)%N w) ;;
    count ← gets request_retry_count;
    if (transactionMessageAttempts env <? count)%N then
      fifo_pop ;;
      modify (set_request_retry_count 0%N)
    else
      up ← msg_sender_isConnected;
      when up (timer_restart (Seconds (transactionMessageRetryInterval env))).

(** Lines 392-483: the body of the do-while. *)
Definition process_request : St unit :=
  e ← fifo_front;
  match e with
  | Some e => res ← send_request e; handle_result res
  | None => mret tt
  end.

(** Line 484: the condition of the do-while. *)
Definition loop_condition : St bool :=
  n ← fifo_size;
  started ← timer_isStarted;
  up ← msg_sender_isConnected;
  mret (bool_decide (n ≠ 0) && negb started && up).

(** The do-while, run for at most [S fuel] turns; the value is [false]
    when the turns are used up before the condition fails. *)
Fixpoint do_while (fuel : nat) : St bool :=
  process_request ;;
  again ← loop_condition;
  if again : bool then
    match fuel with
    | S fuel => do_while fuel
    | O => mret false
    end
  else mret true.

(** The do-while of [processFifoRequest] comes to its end within as many
    turns as the FIFO has requests, see [do_while_ends] below. *)
Definition processFifoRequest : St unit :=
  up ← msg_sender_isConnected;
  if up : bool then
    registration ← gets registration_status;
    if decide (registration = RegistrationStatus.Accepted) then
      n ← fifo_size;
      do_while n ;;
      mret tt
    else timer_restart (Milliseconds 250)
  else mret tt.

(** *** updateConnectionStatus and the callback of the timer *)

(** The job given to the worker pool is run at once. *)
Definition updateConnectionStatus (is_connected : bool) : St unit :=
  if is_connected then
    n ← fifo_size;
    if decide (n ≠ 0) then processFifoRequest else mret tt
  else mret tt.

(** The retry timer is single shot: when it fires it is no longer
    started, and its callback runs [processFifoRequest]. *)
Definition retry_timer_callback : St unit :=
  modify (set_request_retry_timer None) ;;
  processFifoRequest.

(** *** The life of a transaction manager *)

(** A turn of the do-while, as a function on the state. *)
Definition turn (w : World) : World := (process_request w).2.

Definition apply_op (op : Op) : St unit :=
  match op with
  | OpStartTransaction connector_id id_tag =>
      startTransaction connector_id id_tag ;; mret tt
  | OpStopTransaction connector_id id_tag reason =>
      stopTransaction connector_id id_tag reason ;; mret tt
  | OpRemoteStartTransaction request =>
      handleMessage_RemoteStartTransactionReq request ;; mret tt
  | OpRemoteStopTransaction request =>
      handleMessage_RemoteStopTransactionReq request ;; mret tt
  | OpProcessFifoRequest => processFifoRequest
  | OpLinkChanged up => modify (set_connected up)
  | OpUpdateConnectionStatus is_connected =>
      updateConnectionStatus is_connected
  | OpRegistrationChanged status =>
      modify (set_registration_status status)
  | OpRetryTimerFired =>
      started ← timer_isStarted;
      if started : bool then retry_timer_callback else mret tt
  | OpMeterValuesQueued json =>
      fifo_push {| action := METER_VALUES_ACTION;
                   payload := PMeterValues json |}
  end.

Fixpoint run (ops : list Op) (w : World) : World :=
  match ops with
  | [] => w
  | op :: ops => run ops (apply_op op w).2
  end.

End TransactionManager.


(** ** What the drainer leaves in the log *)

(** Events that are neither a call of the message sender nor a pop. *)
Definition bookkeeping (e : Event) : Prop :=
  is_send e = false ∧ is_pop e = false.

(** Lines 409-433: what follows an answer to a queued StartTransaction
    request, given the connectors, the document of the request and the
    [idTagInfo] of the response. *)
Definition start_response_events (env : Collaborators)
    (cs : list Connector.t) (pl : Payload) (info : IdTagInfo.t)
    : list Event :=
  let request := StartTransactionReq_fromJson env pl in
  (if decide (IdTagInfo.status info ≠ AuthorizationStatus.ConcurrentTx)
   then [EvAuthentUpdate (StartTransactionReq.idTag request) info] else [])
  ++ (if decide (IdTagInfo.status info ≠ AuthorizationStatus.Accepted) then
        match Connectors.getConnector cs
                (StartTransactionReq.connectorId request) with
        | Some (_, connector) =>
            if decide (Connector.transaction_id connector = (-1)%Z
                       ∧ Connector.transaction_id_tag connector
                         = StartTransactionReq.idTag request)
            then [EvTransactionDeAuthorized (Connector.id connector)]
            else []
        | None => []
        end
      else []).

(** The state once the head of the FIFO is popped and the counter reset. *)
Definition popped (w : World) : World :=
  set_request_retry_count 0
    (set_trace (trace w ++ [EvFifoPop])
       (set_requests_fifo (tail (requests_fifo w)) w)).

(** The most sends the drainer may spend on one request. *)
Definition attempts_bound (env : Collaborators) : nat :=
  S (N.to_nat (transactionMessageAttempts env)).

(** The condition of the do-while, read on a state. *)
Definition loops (w : World) : bool :=
  bool_decide (length (requests_fifo w) ≠ 0)
  && negb (bool_decide (is_Some (request_retry_timer w)))
  && connected w.

(** What the retry counter knows about the log: the sends of the drainer
    since the last pop are no more than the counter, which is no more
    than [TransactionMessageAttempts], and the bound held all along. *)
Definition drainer_inv (env : Collaborators) (w : World) : Prop :=
  ∃ s, scan (attempts_bound env) (trace w) = (s, true)
       ∧ (N.of_nat s ≤ request_retry_count w)%N
       ∧ (request_retry_count w ≤ transactionMessageAttempts env)%N.

(** ** The conditions of the specification, in its words *)

(** "Reject unless connectorId is set and ≠ 0, the connector exists, its
    status is not Unavailable, no transaction is in progress on it, and
    the reservation manager allows the id-tag on that connector." *)
Definition remote_start_admissible (env : Collaborators) (w : World)
    (request : RemoteStartTransactionReq.t) (cid : nat) : Prop :=
  RemoteStartTransactionReq.connectorId request = Some cid
  ∧ cid ≠ 0
  ∧ ∃ p connector,
      Connectors.getConnector (connectors w) cid = Some (p, connector)
      ∧ Connector.status connector ≠ ChargePointStatus.Unavailable
      ∧ Connector.transaction_id connector = 0%Z
      ∧ isTransactionAllowed env (connectors w) cid
          (RemoteStartTransactionReq.idTag request)
        = AuthorizationStatus.Accepted.

(** The three actions the drainer knows. *)
Definition known_action (a : string) : Prop :=
  a = START_TRANSACTION_ACTION ∨ a = STOP_TRANSACTION_ACTION
  ∨ a = METER_VALUES_ACTION.

(** ** A charge point with two connectors

    The scenarios of the specification are run on this charge point:
    connector 0 stands for the charge point, connectors 1 and 2 are
    available. The network follows a script; the reservation manager
    allows every transaction unless told otherwise. *)

Definition idTagInfo_of (status : AuthorizationStatus.t) : IdTagInfo.t :=
  {| IdTagInfo.status := status; IdTagInfo.expiryDate := None;
     IdTagInfo.parentIdTag := None |}.

Definition outcome (res : CallResult.t) (status : AuthorizationStatus.t)
    (transactionId : Z) (up : bool) : NetOutcome :=
  {| result := res;
     start_conf :=
       {| StartTransactionConf.idTagInfo := idTagInfo_of status;
          StartTransactionConf.transactionId := transactionId |};
     stop_conf := {| StopTransactionConf.idTagInfo := None |};
     connected_after := up |}.

Definition station (script : nat → NetOutcome)
    (allowed : nat → string → AuthorizationStatus.t)
    (cabinet_accepts install_ok : bool) : Collaborators :=
  {| isTransactionAllowed := λ _, allowed;
     reservationCleared := λ _, (ChargePointStatus.Available, 0%Z);
     getTxStartStopMeterValue := λ _ _, 100%Z;
     remoteStartTransactionRequested := λ _ _, cabinet_accepts;
     remoteStopTransactionRequested := λ _, cabinet_accepts;
     installTxProfile := λ _ _, install_ok;
     getTxStopMeterValues := λ _, [];
     transactionMessageAttempts := 3;
     transactionMessageRetryInterval := 60;
     reserveConnectorZeroSupported := false;
     now := λ n, (1000 + Z.of_nat n)%Z;
     net := script;
     IdToken_assign := λ s, s;
     StartTransactionReq_default :=
       {| StartTransactionReq.connectorId := 0;
          StartTransactionReq.idTag := "";
          StartTransactionReq.meterStart := 0%Z;
          StartTransactionReq.reservationId := None;
          StartTransactionReq.timestamp := 0%Z |} |}.

Definition always_allowed (connector_id : nat) (id_tag : string)
    : AuthorizationStatus.t :=
  AuthorizationStatus.Accepted.

Definition connector_with (cid : nat) (tid : Z) (tag : string)
    : Connector.t :=
  {| Connector.id := cid; Connector.status := ChargePointStatus.Available;
     Connector.transaction_id := tid; Connector.transaction_start := 0%Z;
     Connector.transaction_id_tag := tag; Connector.reservation_id := 0%Z |}.

Definition idle_connectors : list Connector.t :=
  [connector_with 0 0%Z ""; connector_with 1 0%Z ""; connector_with 2 0%Z ""].

Definition world_with (cs : list Connector.t) (fifo : list FifoEntry)
    (up : bool) (registration : RegistrationStatus.t) : World :=
  TransactionManager_new cs ∅ fifo up registration.

(** The link is down: every call fails. *)
Definition offline (n : nat) : NetOutcome :=
  outcome CallResult.Failed AuthorizationStatus.Invalid 0%Z false.

(** The central system answers every call with the same status and
    transaction id. *)
Definition answering (status : AuthorizationStatus.t) (transactionId : Z)
    (n : nat) : NetOutcome :=
  outcome CallResult.Ok status transactionId true.

(** The link is up but every call fails. *)
Definition failing (n : nat) : NetOutcome :=
  outcome CallResult.Failed AuthorizationStatus.Invalid 0%Z true.

(** ** The state before and after a member function *)

(** The member function only wrote to the log, and made no call of the
    message sender. *)
Definition only_logs (w w' : World) : Prop :=
  ∃ evs, w' = set_trace (trace w ++ evs) w ∧ count_events is_send evs = 0.

(** The member function popped nothing: the FIFO grew at its back, and
    the retry counter and the retry timer are as before. *)
Definition producer (w w' : World) : Prop :=
  request_retry_count w' = request_retry_count w
  ∧ request_retry_timer w' = request_retry_timer w
  ∧ ∃ added, requests_fifo w' = requests_fifo w ++ added.

(** The member function pushed nothing and left the connectors alone:
    the FIFO lost requests at its front. *)
Definition consumer (w w' : World) : Prop :=
  connectors w' = connectors w
  ∧ database w' = database w
  ∧ registration_status w' = registration_status w
  ∧ ∃ k, requests_fifo w' = drop k (requests_fifo w).

(** The retry counter is within [TransactionMessageAttempts], and 0 when
    the FIFO is empty. *)
Definition counter_inv (env : Collaborators) (w : World) : Prop :=
  (request_retry_count w ≤ transactionMessageAttempts env)%N
  ∧ (requests_fifo w = [] → request_retry_count w = 0%N).

(** Lines 124-153: the reservation id the request is given, if any. *)
Definition reservation_for (env : Collaborators) (cs : list Connector.t)
    (id_tag : string) (connector : Connector.t) : option Z :=
  if decide (Connector.status connector = ChargePointStatus.Reserved) then
    Some (Connector.reservation_id connector)
  else if reserveConnectorZeroSupported env then
    match Connectors.getConnector cs Connectors.CONNECTOR_ID_CHARGE_POINT with
    | Some (_, charge_point) =>
        if decide (Connector.status charge_point = ChargePointStatus.Reserved)
        then
          if decide (isTransactionAllowed env cs
                       Connectors.CONNECTOR_ID_CHARGE_POINT id_tag
                     = AuthorizationStatus.Accepted)
          then Some (Connector.reservation_id charge_point)
          else None
        else None
    | None => None
    end
  else None.

(** From the n-th call on, every call succeeds and leaves the link up. *)
Definition network_up_from (env : Collaborators) (n : nat) : Prop :=
  ∀ k, n ≤ k →
    result (net env k) = CallResult.Ok ∧ connected_after (net env k) = true.

(** The call the drainer makes for a request of the FIFO, with the link
    up and the charge point registered. *)
Definition drainer_call (e : FifoEntry) : Event :=
  EvCall (action e) (payload e) false true RegistrationStatus.Accepted.

Definition is_authent_update (e : Event) : bool :=
  match e with EvAuthentUpdate _ _ => true | _ => false end.

(** * Properties *)

(** ** Connectors *)

Lemma getConnector_lookup cs cid p c :
  Connectors.getConnector cs cid = Some (p, c) →
  cs !! p = Some c ∧ Connector.id c = cid.
Proof.
  unfold Connectors.getConnector. rewrite list_find_Some.
  by intros (? & ? & _).
Qed.

Lemma getConnector_alter cs cid p c (f : Connector.t → Connector.t) :
  (∀ x, Connector.id (f x) = Connector.id x) →
  Connectors.getConnector cs cid = Some (p, c) →
  Connectors.getConnector (alter f p cs) cid = Some (p, f c).
Proof.
  unfold Connectors.getConnector. intros Hid.
  rewrite !list_find_Some. intros (Hl & Hp & Hlt).
  split_and!.
  - by rewrite list_lookup_alter_eq, Hl.
  - by rewrite Hid.
  - intros j y Hj Hlt'. rewrite list_lookup_alter_ne in Hj by lia. eauto.
Qed.

Lemma reservation_touched_refl cs : reservation_touched cs cs.
Proof.
  apply Forall2_same_length_lookup_2; [done |].
  intros i x y Hx Hy. left. congruence.
Qed.

Lemma reservation_touched_alter cs p sr :
  reservation_touched cs
    (alter (λ c, Connector.set_reservation (sr c) c) p cs).
Proof.
  apply Forall2_same_length_lookup_2.
  - by rewrite length_alter.
  - intros i x y Hx Hy. rewrite list_lookup_alter in Hy.
    destruct (decide (p = i)) as [->|]; [|naive_solver].
    rewrite Hx in Hy. simpl in Hy. naive_solver.
Qed.

Lemma reservation_touched_id cs cs' i c c' :
  reservation_touched cs cs' →
  cs !! i = Some c → cs' !! i = Some c' →
  (c' = c ∨ ∃ sr, c' = Connector.set_reservation sr c)
  ∧ Connector.id c' = Connector.id c.
Proof.
  intros H Hc Hc'.
  destruct (Forall2_lookup_lr _ _ _ _ _ _ H Hc Hc') as [->|[sr ->]];
    naive_solver.
Qed.

Lemma getConnector_touched cs cs' cid p c :
  reservation_touched cs cs' →
  Connectors.getConnector cs cid = Some (p, c) →
  ∃ c', Connectors.getConnector cs' cid = Some (p, c')
        ∧ (c' = c ∨ ∃ sr, c' = Connector.set_reservation sr c).
Proof.
  intros H. unfold Connectors.getConnector.
  rewrite list_find_Some. intros (Hl & Hp & Hlt).
  destruct (Forall2_lookup_l _ _ _ _ _ H Hl) as (c' & Hl' & Hc').
  exists c'. split; [|done].
  destruct (reservation_touched_id _ _ _ _ _ H Hl Hl') as [_ Hid].
  apply list_find_Some. split_and!; [done | congruence |].
  intros j y Hj Hlt'.
  destruct (Forall2_lookup_r _ _ _ _ _ H Hj) as (x & Hx & _).
  destruct (reservation_touched_id _ _ _ _ _ H Hx Hj) as [_ Hid'].
  rewrite Hid'. eauto.
Qed.

(** ** The state monad *)

Ltac exec :=
  repeat (unfold mbind, mret, St_bind, St_ret; cbn).

Lemma St_bind_run {A B} (m : St A) (k : A → St B) w a w' :
  m w = (a, w') → St_bind A B k m w = k a w'.
Proof. unfold St_bind. by intros ->. Qed.

Lemma World_eta w :
  set_trace (trace w ++ []) (set_connectors (connectors w) w) = w.
Proof. destruct w. unfold set_trace, set_connectors. simpl. by rewrite app_nil_r. Qed.

(** ** startTransaction *)

Lemma clearReservation_run env cid w :
  ∃ cs',
    reservation_clearReservation env cid w
    = (tt, set_trace (trace w ++ [EvClearReservation cid])
             (set_connectors cs' w))
    ∧ reservation_touched (connectors w) cs'.
Proof.
  unfold reservation_clearReservation. exec.
  destruct (Connectors.getConnector (connectors w) cid) as [[p c]|]; exec.
  - eexists. split; [reflexivity|]. apply reservation_touched_alter.
  - exists (connectors w). split; [by destruct w|].
    apply reservation_touched_refl.
Qed.

Lemma check_reservations_run env cid tag c req w :
  ∃ req' cs' evs,
    check_reservations env cid tag c req w
    = (req', set_trace (trace w ++ evs) (set_connectors cs' w))
    ∧ reservation_touched (connectors w) cs'
    ∧ Forall is_clear_reservation evs
    ∧ StartTransactionReq.connectorId req' = StartTransactionReq.connectorId req
    ∧ StartTransactionReq.idTag req' = StartTransactionReq.idTag req
    ∧ StartTransactionReq.meterStart req' = StartTransactionReq.meterStart req
    ∧ StartTransactionReq.timestamp req' = StartTransactionReq.timestamp req.
Proof.
  assert (Hsame : ∃ req' cs' evs,
    (req, w) = (req', set_trace (trace w ++ evs) (set_connectors cs' w))
    ∧ reservation_touched (connectors w) cs'
    ∧ Forall is_clear_reservation evs
    ∧ StartTransactionReq.connectorId req' = StartTransactionReq.connectorId req
    ∧ StartTransactionReq.idTag req' = StartTransactionReq.idTag req
    ∧ StartTransactionReq.meterStart req' = StartTransactionReq.meterStart req
    ∧ StartTransactionReq.timestamp req' = StartTransactionReq.timestamp req).
  { exists req, (connectors w), []. rewrite World_eta.
    split_and!; auto using reservation_touched_refl. }
  assert (Hclear : ∀ v, ∃ req' cs' evs,
    (reservation_clearReservation env cid ;;
     mret (StartTransactionReq.set_reservationId v req)) w
    = (req', set_trace (trace w ++ evs) (set_connectors cs' w))
    ∧ reservation_touched (connectors w) cs'
    ∧ Forall is_clear_reservation evs
    ∧ StartTransactionReq.connectorId req' = StartTransactionReq.connectorId req
    ∧ StartTransactionReq.idTag req' = StartTransactionReq.idTag req
    ∧ StartTransactionReq.meterStart req' = StartTransactionReq.meterStart req
    ∧ StartTransactionReq.timestamp req' = StartTransactionReq.timestamp req).
  { intros v. destruct (clearReservation_run env cid w) as (cs' & Hrun & Ht).
    unfold mbind. rewrite (St_bind_run _ _ _ _ _ Hrun).
    eexists _, cs', _. split; [reflexivity|].
    split_and!; auto. repeat constructor. by exists cid. }
  unfold check_reservations.
  destruct (decide (Connector.status c = ChargePointStatus.Reserved)); [apply Hclear|].
  destruct (reserveConnectorZeroSupported env); [|apply Hsame]. exec.
  destruct (Connectors.getConnector _ _) as [[? cp]|]; exec; [|apply Hsame].
  destruct (decide (Connector.status cp = ChargePointStatus.Reserved)); [|apply Hsame].
  exec. destruct (decide (isTransactionAllowed env _ _ _ = _)); [apply Hclear|apply Hsame].
Qed.

Lemma saveConnector_run cid w p c :
  Connectors.getConnector (connectors w) cid = Some (p, c) →
  saveConnector cid w
  = (tt, set_trace (trace w ++ [EvSaveConnector c])
           (set_database (<[cid := c]> (database w)) w)).
Proof. unfold saveConnector. by intros ->. Qed.

Lemma start_send_failed_run env w connector_id id_tag p connector :
  connector_id ≠ 0 →
  Connectors.getConnector (connectors w) connector_id = Some (p, connector) →
  isTransactionAllowed env (connectors w) connector_id id_tag
  = AuthorizationStatus.Accepted →
  result (net env (calls w)) = CallResult.Failed →
  ∃ w' c' req,
      startTransaction env connector_id id_tag w
      = (AuthorizationStatus.Accepted, w')
      ∧ Connectors.getConnector (connectors w') connector_id = Some (p, c')
      ∧ Connector.transaction_id c' = (-1)%Z
      ∧ Connector.transaction_id_tag c' = id_tag
      ∧ database w' !! connector_id = Some c'
      ∧ EvSaveConnector c' ∈ trace w'
      ∧ requests_fifo w'
        = requests_fifo w
          ++ [{| action := START_TRANSACTION_ACTION;
                 payload := PStartTransaction req |}]
      ∧ StartTransactionReq.connectorId req = connector_id
      ∧ StartTransactionReq.idTag req = IdToken_assign env id_tag.
Proof.
  intros H0 Hg Ha Hfail.
  unfold startTransaction.
  rewrite decide_True by done.
  unfold getConnector. exec. rewrite Hg. exec.
  unfold reservation_isTransactionAllowed. exec. rewrite Ha.
  rewrite decide_True by done. exec.
  match goal with |- context [check_reservations env ?a ?b ?c ?r ?w] =>
    destruct (check_reservations_run env a b c r w)
      as (req' & cs' & evs & Hrun & Ht & Hevs & Hc & Hi & _) end.
  rewrite Hrun. simpl in Ht, Hc, Hi. clear Hrun.
  unfold msg_sender_call. exec.
  rewrite Hfail. rewrite bool_decide_eq_false_2 by done.
  unfold when, fifo_push, log, modify. exec.
  rewrite Hfail, decide_False by done. exec.
  rewrite decide_True by done. exec.
  destruct (getConnector_touched _ _ _ _ _ Ht Hg) as (c1 & Hg1 & Hc1).
  pose proof (getConnector_alter _ _ _ _
    (Connector.set_transaction (-1) (now env (S (ticks w))) id_tag)
    (λ _, eq_refl) Hg1) as Hg2.
  destruct (getConnector_lookup _ _ _ _ Hg2) as [Hl2 Hid2].
  rewrite Hl2. simpl default. simpl Connector.id at 1.
  destruct (getConnector_lookup _ _ _ _ Hg1) as [_ ->].
  erewrite saveConnector_run by exact Hg2. exec. rewrite Hl2. exec.
  eexists _, _, req'. split; [reflexivity|]. exec.
  split_and!; try done.
  - apply lookup_insert_eq.
  - rewrite !elem_of_app, !list_elem_of_singleton. auto.
Qed.

(** C1. When the connector exists, is not connector 0, the reservation
    manager allows the transaction and the send of the StartTransaction
    request fails, [startTransaction] returns [Accepted]; the connector
    holds the provisional transaction id -1 and the id tag; its record has
    been saved; and the request is at the back of the FIFO. *)
Theorem start_send_failed env w connector_id id_tag p connector :
  connector_id ≠ 0 →
  Connectors.getConnector (connectors w) connector_id = Some (p, connector) →
  isTransactionAllowed env (connectors w) connector_id id_tag
  = AuthorizationStatus.Accepted →
  result (net env (calls w)) = CallResult.Failed →
  let w' := (startTransaction env connector_id id_tag w).2 in
  (startTransaction env connector_id id_tag w).1 = AuthorizationStatus.Accepted
  ∧ ∃ c' req,
      Connectors.getConnector (connectors w') connector_id = Some (p, c')
      ∧ Connector.transaction_id c' = (-1)%Z
      ∧ Connector.transaction_id_tag c' = id_tag
      ∧ database w' !! connector_id = Some c'
      ∧ EvSaveConnector c' ∈ trace w'
      ∧ requests_fifo w'
        = requests_fifo w
          ++ [{| action := START_TRANSACTION_ACTION;
                 payload := PStartTransaction req |}]
      ∧ StartTransactionReq.connectorId req = connector_id
      ∧ StartTransactionReq.idTag req = IdToken_assign env id_tag.
Proof.
  intros H0 Hg Ha Hfail.
  destruct (start_send_failed_run _ _ _ _ _ _ H0 Hg Ha Hfail)
    as (w1 & c' & req & -> & H).
  simpl. eauto.
Qed.

(** Scenario S2 of the specification: the link is down and a transaction
    is started on connector 2. *)
Lemma start_send_failed_witness :
  let env := station offline always_allowed true true in
  let w := world_with idle_connectors [] false RegistrationStatus.Accepted in
  let w' := (startTransaction env 2 "TAG02" w).2 in
  (startTransaction env 2 "TAG02" w).1 = AuthorizationStatus.Accepted
  ∧ ∃ c' req,
      Connectors.getConnector (connectors w') 2 = Some (2, c')
      ∧ Connector.transaction_id c' = (-1)%Z
      ∧ Connector.transaction_id_tag c' = "TAG02"
      ∧ database w' !! 2 = Some c'
      ∧ EvSaveConnector c' ∈ trace w'
      ∧ requests_fifo w'
        = requests_fifo w
          ++ [{| action := START_TRANSACTION_ACTION;
                 payload := PStartTransaction req |}]
      ∧ StartTransactionReq.connectorId req = 2
      ∧ StartTransactionReq.idTag req = IdToken_assign env "TAG02".
Proof.
  intros env w.
  apply (start_send_failed env w 2 "TAG02" 2 (connector_with 2 0%Z ""));
    [lia | reflexivity | reflexivity | reflexivity].
Defined.

(** ** stopTransaction *)

Lemma stopTransaction_run env w connector_id id_tag reason p connector :
  Connectors.getConnector (connectors w) connector_id = Some (p, connector) →
  Connector.transaction_id connector ≠ 0%Z →
  let o := net env (calls w) in
  let c0 := Connector.set_transaction 0%Z 0%Z "" connector in
  let req :=
    {| StopTransactionReq.idTag :=
         if decide (id_tag = "") then None
         else Some (IdToken_assign env id_tag);
       StopTransactionReq.meterStop :=
         getTxStartStopMeterValue env (ticks w) connector_id;
       StopTransactionReq.timestamp := now env (ticks w);
       StopTransactionReq.transactionId := Connector.transaction_id connector;
       StopTransactionReq.reason := reason;
       StopTransactionReq.transactionData :=
         getTxStopMeterValues env connector_id |} in
  let entry :=
    {| action := STOP_TRANSACTION_ACTION; payload := PStopTransaction req |} in
  ∃ w',
    stopTransaction env connector_id id_tag reason w = (true, w')
    ∧ connectors w'
      = alter (Connector.set_transaction 0%Z 0%Z "") p (connectors w)
    ∧ database w' = <[connector_id := c0]> (database w)
    ∧ requests_fifo w'
      = requests_fifo w
        ++ (if decide (result o = CallResult.Ok) then [] else [entry])
    ∧ trace w'
      = trace w
        ++ [EvStopSampledMeterValues connector_id;
            EvSaveConnector c0;
            EvCall STOP_TRANSACTION_ACTION (PStopTransaction req) true
              (connected w) (registration_status w)]
        ++ (if decide (result o = CallResult.Ok) then
              match StopTransactionConf.idTagInfo (stop_conf o) with
              | Some info => [EvAuthentUpdate id_tag info]
              | None => []
              end
            else [EvFifoPush entry])
        ++ [EvClearTxProfiles connector_id].
Proof.
  intros Hg Htid o c0 req entry.
  unfold stopTransaction, getConnector. exec. rewrite Hg. exec.
  rewrite decide_True by done. exec.
  unfold log, modify, mutate, deref, events_getTxStartStopMeterValue. exec.
  pose proof (getConnector_alter _ _ _ _
    (Connector.set_transaction 0%Z 0%Z "") (λ _, eq_refl) Hg) as Hg2.
  destruct (getConnector_lookup _ _ _ _ Hg2) as [Hl2 Hid2].
  rewrite Hl2. simpl default. simpl Connector.id at 1.
  destruct (getConnector_lookup _ _ _ _ Hg) as [_ ->].
  erewrite saveConnector_run by exact Hg2. exec.
  unfold msg_sender_call, log, modify. exec.
  fold o req entry c0.
  destruct (decide (result o = CallResult.Ok)) as [Hok|Hko].
  - repeat (rewrite ?Hok; rewrite ?bool_decide_eq_true_2 by done; exec).
    destruct (StopTransactionConf.idTagInfo (stop_conf o)); exec;
      (eexists; split; [reflexivity|]); exec;
      rewrite <- ?app_assoc, ?app_nil_r; done.
  - repeat (rewrite ?bool_decide_eq_false_2 by done;
            unfold fifo_push, log, modify; exec).
    eexists; split; [reflexivity|]; exec.
    rewrite <- ?app_assoc; done.
Qed.

(** C2. When the connector exists and holds a transaction,
    [stopTransaction] returns [true] whatever the outcome of the send.
    The connector then holds transaction id 0, an empty id tag and start
    time 0, its other fields being as before; this record is the one saved
    in the database, and in the log its save comes before the one call of
    the message sender, which carries the transaction id the connector
    held. *)
Theorem stop_resets_before_send env w connector_id id_tag reason p connector :
  Connectors.getConnector (connectors w) connector_id = Some (p, connector) →
  Connector.transaction_id connector ≠ 0%Z →
  let w' := (stopTransaction env connector_id id_tag reason w).2 in
  (stopTransaction env connector_id id_tag reason w).1 = true
  ∧ ∃ c0,
      Connector.transaction_id c0 = 0%Z
      ∧ Connector.transaction_id_tag c0 = ""
      ∧ Connector.transaction_start c0 = 0%Z
      ∧ Connector.id c0 = connector_id
      ∧ Connector.status c0 = Connector.status connector
      ∧ Connector.reservation_id c0 = Connector.reservation_id connector
      ∧ Connectors.getConnector (connectors w') connector_id = Some (p, c0)
      ∧ database w' !! connector_id = Some c0
      ∧ ∃ req after,
          trace w'
          = trace w
            ++ [EvStopSampledMeterValues connector_id;
                EvSaveConnector c0;
                EvCall STOP_TRANSACTION_ACTION (PStopTransaction req) true
                  (connected w) (registration_status w)]
            ++ after
          ∧ count_events is_send after = 0
          ∧ StopTransactionReq.transactionId req
            = Connector.transaction_id connector.
Proof.
  intros Hg Htid.
  destruct (stopTransaction_run env w connector_id id_tag reason p connector
              Hg Htid) as (w1 & -> & Hcs & Hdb & _ & Htr).
  destruct (getConnector_lookup _ _ _ _ Hg) as [_ Hid].
  simpl. rewrite Hcs, Hdb, Htr. split; [done|].
  exists (Connector.set_transaction 0%Z 0%Z "" connector).
  split_and!; [done | done | done | done | done | done | | |].
  - by apply getConnector_alter.
  - apply lookup_insert_eq.
  - eexists _, _. split; [reflexivity|]. split; [|done].
    destruct (decide (result _ = _));
      [destruct (StopTransactionConf.idTagInfo _)|]; done.
Qed.

(** A transaction confirmed with id 42 runs on connector 1 since time
    1234 and is stopped while the link is down. *)
Lemma stop_resets_before_send_witness :
  let env := station offline always_allowed true true in
  let running :=
    {| Connector.id := 1; Connector.status := ChargePointStatus.Charging;
       Connector.transaction_id := 42%Z;
       Connector.transaction_start := 1234%Z;
       Connector.transaction_id_tag := "TAG01";
       Connector.reservation_id := 0%Z |} in
  let w := world_with [connector_with 0 0%Z ""; running] [] false
             RegistrationStatus.Accepted in
  let w' := (stopTransaction env 1 "TAG01" Reason.Local w).2 in
  (stopTransaction env 1 "TAG01" Reason.Local w).1 = true
  ∧ ∃ c0,
      Connector.transaction_id c0 = 0%Z
      ∧ Connector.transaction_id_tag c0 = ""
      ∧ Connector.transaction_start c0 = 0%Z
      ∧ Connector.id c0 = 1
      ∧ Connector.status c0 = ChargePointStatus.Charging
      ∧ Connector.reservation_id c0 = 0%Z
      ∧ Connectors.getConnector (connectors w') 1 = Some (1, c0)
      ∧ database w' !! 1 = Some c0
      ∧ ∃ req after,
          trace w'
          = trace w
            ++ [EvStopSampledMeterValues 1;
                EvSaveConnector c0;
                EvCall STOP_TRANSACTION_ACTION (PStopTransaction req) true
                  (connected w) (registration_status w)]
            ++ after
          ∧ count_events is_send after = 0
          ∧ StopTransactionReq.transactionId req = 42%Z.
Proof.
  intros env running w.
  apply (stop_resets_before_send env w 1 "TAG01" Reason.Local 1 running);
    [reflexivity | discriminate].
Defined.

(** C10. [stopTransaction] does not look at the id tag stored on the
    connector: whatever id tag it is given and whatever id tag the connector
    holds, it returns [true] and ends the transaction: the connector then
    holds transaction id 0, an empty id tag and start time 0, the other
    connectors being as before. The id tag given only decides the [idTag]
    field of the one request sent, which is left out when the id tag is
    empty. *)
Theorem stop_any_id_tag env w connector_id id_tag reason p connector :
  Connectors.getConnector (connectors w) connector_id = Some (p, connector) →
  Connector.transaction_id connector ≠ 0%Z →
  let w' := (stopTransaction env connector_id id_tag reason w).2 in
  (stopTransaction env connector_id id_tag reason w).1 = true
  ∧ (∃ c0,
       Connectors.getConnector (connectors w') connector_id = Some (p, c0)
       ∧ Connector.transaction_id c0 = 0%Z
       ∧ Connector.transaction_id_tag c0 = ""
       ∧ Connector.transaction_start c0 = 0%Z)
  ∧ (∀ i, i ≠ p → connectors w' !! i = connectors w !! i)
  ∧ ∃ req before after,
      trace w'
      = trace w
        ++ before
        ++ [EvCall STOP_TRANSACTION_ACTION (PStopTransaction req) true
              (connected w) (registration_status w)]
        ++ after
      ∧ count_events is_send before = 0
      ∧ count_events is_send after = 0
      ∧ (id_tag = "" → StopTransactionReq.idTag req = None)
      ∧ (id_tag ≠ "" →
         StopTransactionReq.idTag req = Some (IdToken_assign env id_tag)).
Proof.
  intros Hg Htid.
  destruct (stopTransaction_run env w connector_id id_tag reason p connector
              Hg Htid) as (w1 & -> & Hcs & _ & _ & Htr).
  simpl. rewrite Hcs, Htr. split_and!; [done | | |].
  - exists (Connector.set_transaction 0%Z 0%Z "" connector).
    split_and!; [|done..]. by apply getConnector_alter.
  - intros i Hi. by apply list_lookup_alter_ne.
  - eexists _, [_; _], _. split; [reflexivity|].
    split_and!; [done | | |].
    + destruct (decide (result _ = _));
        [destruct (StopTransactionConf.idTagInfo _)|]; done.
    + intros Hempty. simpl. by rewrite decide_True.
    + intros Hset. simpl. by rewrite decide_False.
Qed.

(** The transaction on connector 1 was started with TAG01 and is stopped
    with another id tag. *)
Lemma stop_any_id_tag_witness :
  let env := station (answering AuthorizationStatus.Accepted 0%Z)
               always_allowed true true in
  let cs := [connector_with 0 0%Z ""; connector_with 1 42%Z "TAG01"] in
  let w := world_with cs [] true RegistrationStatus.Accepted in
  let w' := (stopTransaction env 1 "OTHER" Reason.Local w).2 in
  (stopTransaction env 1 "OTHER" Reason.Local w).1 = true
  ∧ (∃ c0,
       Connectors.getConnector (connectors w') 1 = Some (1, c0)
       ∧ Connector.transaction_id c0 = 0%Z
       ∧ Connector.transaction_id_tag c0 = ""
       ∧ Connector.transaction_start c0 = 0%Z)
  ∧ (∀ i, i ≠ 1 → connectors w' !! i = connectors w !! i)
  ∧ ∃ req before after,
      trace w'
      = trace w
        ++ before
        ++ [EvCall STOP_TRANSACTION_ACTION (PStopTransaction req) true
              (connected w) (registration_status w)]
        ++ after
      ∧ count_events is_send before = 0
      ∧ count_events is_send after = 0
      ∧ ("OTHER" = "" → StopTransactionReq.idTag req = None)
      ∧ ("OTHER" ≠ "" →
         StopTransactionReq.idTag req = Some (IdToken_assign env "OTHER")).
Proof.
  intros env cs w.
  apply (stop_any_id_tag env w 1 "OTHER" Reason.Local 1
           (connector_with 1 42%Z "TAG01"));
    [reflexivity | discriminate].
Defined.

(** ** Preconditions *)

(** C5, as the code has it. [startTransaction] returns [Invalid] and
    leaves the state as it is, no call made, on connector 0 and on a
    connector that does not exist; [stopTransaction] returns [false] and
    leaves the state as it is when the connector does not exist or holds
    no transaction. *)
Theorem preconditions_violated env w connector_id id_tag reason :
  (connector_id = 0
   ∨ Connectors.getConnector (connectors w) connector_id = None →
   startTransaction env connector_id id_tag w
   = (AuthorizationStatus.Invalid, w))
  ∧ (Connectors.getConnector (connectors w) connector_id = None
     ∨ (∃ p connector,
          Connectors.getConnector (connectors w) connector_id
          = Some (p, connector)
          ∧ Connector.transaction_id connector = 0%Z) →
     stopTransaction env connector_id id_tag reason w = (false, w)).
Proof.
  split.
  - intros H. unfold startTransaction.
    destruct (decide (connector_id ≠ 0)) as [Hne|]; [|done].
    destruct H as [->|Hnone]; [done|].
    unfold getConnector. exec. by rewrite Hnone.
  - intros H. unfold stopTransaction, getConnector. exec.
    destruct H as [->|(p & c & -> & Htid)]; [done|]. exec.
    by rewrite decide_False by (by intros []).
Qed.

(** Against C5 as stated, which has [startTransaction] return [Invalid]
    when a transaction is already running on the connector. A
    transaction already runs on connector 1 (id 10): [startTransaction]
    on that connector sends the request all the same and, the central
    system accepting, returns [Accepted] and overwrites the transaction
    of the connector. *)
Lemma start_on_busy_connector :
  let env := station (answering AuthorizationStatus.Accepted 42%Z)
               always_allowed true true in
  let cs := [connector_with 0 0%Z ""; connector_with 1 10%Z "TAG00"] in
  let w := world_with cs [] true RegistrationStatus.Accepted in
  let w' := (startTransaction env 1 "TAG01" w).2 in
  Connectors.getConnector (connectors w) 1
  = Some (1, connector_with 1 10%Z "TAG00")
  ∧ (startTransaction env 1 "TAG01" w).1 = AuthorizationStatus.Accepted
  ∧ (startTransaction env 1 "TAG01" w).1 ≠ AuthorizationStatus.Invalid
  ∧ count_events is_send (trace w') = 1
  ∧ Connector.transaction_id <$> (connectors w' !! 1) = Some 42%Z
  ∧ Connector.transaction_id_tag <$> (connectors w' !! 1) = Some "TAG01".
Proof. by vm_compute. Qed.

Lemma preconditions_violated_witness :
  let env := station offline always_allowed true true in
  let w := world_with idle_connectors [] false RegistrationStatus.Accepted in
  startTransaction env 0 "TAG01" w = (AuthorizationStatus.Invalid, w)
  ∧ stopTransaction env 2 "TAG01" Reason.Local w = (false, w).
Proof.
  intros env w. split.
  - apply (proj1 (preconditions_violated env w 0 "TAG01" Reason.Local)).
    left. reflexivity.
  - apply (proj2 (preconditions_violated env w 2 "TAG01" Reason.Local)).
    right. exists 2, (connector_with 2 0%Z ""). split; reflexivity.
Defined.

(** ** Rejection by the central system *)

Lemma set_reservation_transaction sr c :
  let c' := Connector.set_reservation sr c in
  Connector.transaction_id c' = Connector.transaction_id c
  ∧ Connector.transaction_start c' = Connector.transaction_start c
  ∧ Connector.transaction_id_tag c' = Connector.transaction_id_tag c.
Proof. done. Qed.

Ltac conclude_run req evs :=
  eexists _, req, evs; split; [reflexivity|]; exec;
  split_and!; try done; rewrite <- ?app_assoc, ?app_nil_r; done.

Lemma start_rejected_run env w connector_id id_tag p connector :
  connector_id ≠ 0 →
  Connectors.getConnector (connectors w) connector_id = Some (p, connector) →
  isTransactionAllowed env (connectors w) connector_id id_tag
  = AuthorizationStatus.Accepted →
  let o := net env (calls w) in
  let info := StartTransactionConf.idTagInfo (start_conf o) in
  result o = CallResult.Ok →
  IdTagInfo.status info ≠ AuthorizationStatus.Accepted →
  ∃ w' req evs,
    let stop_req :=
      {| StopTransactionReq.idTag := None;
         StopTransactionReq.meterStop := StartTransactionReq.meterStart req;
         StopTransactionReq.timestamp := StartTransactionReq.timestamp req;
         StopTransactionReq.transactionId :=
           StartTransactionConf.transactionId (start_conf o);
         StopTransactionReq.reason := Reason.DeAuthorized;
         StopTransactionReq.transactionData := [] |} in
    startTransaction env connector_id id_tag w = (IdTagInfo.status info, w')
    ∧ reservation_touched (connectors w) (connectors w')
    ∧ database w' = database w
    ∧ Forall is_clear_reservation evs
    ∧ StartTransactionReq.connectorId req = connector_id
    ∧ StartTransactionReq.idTag req = IdToken_assign env id_tag
    ∧ trace w'
      = trace w ++ evs
        ++ [EvCall START_TRANSACTION_ACTION (PStartTransaction req) true
              (connected w) (registration_status w)]
        ++ (if decide (IdTagInfo.status info
                       ≠ AuthorizationStatus.ConcurrentTx)
            then [EvAuthentUpdate id_tag info] else [])
        ++ [EvCall STOP_TRANSACTION_ACTION (PStopTransaction stop_req) true
              (connected_after o) (registration_status w)]
        ++ (if decide (result (net env (S (calls w))) = CallResult.Ok)
            then []
            else [EvFifoPush {| action := STOP_TRANSACTION_ACTION;
                                payload := PStopTransaction stop_req |}]).
Proof.
  intros H0 Hg Ha o info Hok Hrej.
  unfold startTransaction.
  rewrite decide_True by done.
  unfold getConnector. exec. rewrite Hg. exec.
  unfold reservation_isTransactionAllowed. exec. rewrite Ha.
  rewrite decide_True by done. exec.
  match goal with |- context [check_reservations env ?a ?b ?c ?r ?w] =>
    destruct (check_reservations_run env a b c r w)
      as (req' & cs' & evs & Hrun & Ht & Hevs & Hc & Hi & _) end.
  rewrite Hrun. simpl in Ht, Hc, Hi. clear Hrun.
  unfold msg_sender_call. exec. fold o.
  repeat (rewrite ?Hok; rewrite ?bool_decide_eq_true_2 by done;
          rewrite ?(decide_True (P := CallResult.Ok = CallResult.Ok)) by done;
          exec).
  fold info. unfold when, log, modify, fifo_push.
  destruct (decide (IdTagInfo.status info ≠ AuthorizationStatus.ConcurrentTx))
    as [Hc1|Hc1].
  - rewrite bool_decide_eq_true_2 by done. exec. fold o info.
    rewrite (decide_False (P := IdTagInfo.status info = _)) by done. exec.
    destruct (decide (result (net env (S (calls w))) = CallResult.Ok))
      as [Hok2|Hko2].
    + rewrite bool_decide_eq_true_2 by done. exec.
      conclude_run req' evs.
    + rewrite bool_decide_eq_false_2 by done. exec.
      conclude_run req' evs.
  - rewrite bool_decide_eq_false_2 by done. exec. fold o info.
    rewrite (decide_False (P := IdTagInfo.status info = _)) by done. exec.
    destruct (decide (result (net env (S (calls w))) = CallResult.Ok))
      as [Hok2|Hko2].
    + rewrite bool_decide_eq_true_2 by done. exec.
      conclude_run req' evs.
    + rewrite bool_decide_eq_false_2 by done. exec.
      conclude_run req' evs.
Qed.

(** C6. When the send of the StartTransaction request succeeds and the
    status of the response is not [Accepted], [startTransaction] returns
    that status; after the start request it sends a StopTransaction
    request with reason [DeAuthorized], the meter value of the start
    request and the transaction id of the start response; and the
    transaction id, start time and id tag of every connector are as
    before. *)
Theorem start_rejected_compensated env w connector_id id_tag p connector :
  connector_id ≠ 0 →
  Connectors.getConnector (connectors w) connector_id = Some (p, connector) →
  isTransactionAllowed env (connectors w) connector_id id_tag
  = AuthorizationStatus.Accepted →
  result (net env (calls w)) = CallResult.Ok →
  IdTagInfo.status (StartTransactionConf.idTagInfo (start_conf (net env (calls w))))
  ≠ AuthorizationStatus.Accepted →
  let o := net env (calls w) in
  let w' := (startTransaction env connector_id id_tag w).2 in
  (startTransaction env connector_id id_tag w).1
  = IdTagInfo.status (StartTransactionConf.idTagInfo (start_conf o))
  ∧ (∃ req stop_req before between after,
       trace w'
       = trace w ++ before
         ++ [EvCall START_TRANSACTION_ACTION (PStartTransaction req) true
               (connected w) (registration_status w)]
         ++ between
         ++ [EvCall STOP_TRANSACTION_ACTION (PStopTransaction stop_req) true
               (connected_after o) (registration_status w)]
         ++ after
       ∧ count_events is_send (before ++ between ++ after) = 0
       ∧ StopTransactionReq.reason stop_req = Reason.DeAuthorized
       ∧ StopTransactionReq.meterStop stop_req
         = StartTransactionReq.meterStart req
       ∧ StopTransactionReq.transactionId stop_req
         = StartTransactionConf.transactionId (start_conf o))
  ∧ (∃ c', Connectors.getConnector (connectors w') connector_id = Some (p, c')
           ∧ Connector.transaction_id c' = Connector.transaction_id connector
           ∧ Connector.transaction_start c'
             = Connector.transaction_start connector
           ∧ Connector.transaction_id_tag c'
             = Connector.transaction_id_tag connector)
  ∧ Forall2 (λ c c',
       Connector.transaction_id c' = Connector.transaction_id c
       ∧ Connector.transaction_start c' = Connector.transaction_start c
       ∧ Connector.transaction_id_tag c' = Connector.transaction_id_tag c)
      (connectors w) (connectors w').
Proof.
  intros H0 Hg Ha Hok Hrej.
  destruct (start_rejected_run _ _ _ _ _ _ H0 Hg Ha Hok Hrej)
    as (w1 & req & evs & -> & Ht & _ & Hevs & _ & _ & Htr).
  simpl. split_and!; [done | | |].
  - eexists req, _, evs, _, _. split; [exact Htr|].
    split_and!; try done.
    assert (Hevs0 : count_events is_send evs = 0).
    { clear -Hevs. induction Hevs as [|e evs [k ->] _ IH]; [done|exact IH]. }
    assert (Happ : ∀ l1 l2, count_events is_send (l1 ++ l2)
                            = count_events is_send l1 + count_events is_send l2).
    { intros l1 l2. induction l1 as [|e l1 IH]; simpl; [done|]. rewrite IH. lia. }
    rewrite !Happ, Hevs0.
    destruct (decide (_ ≠ _)); destruct (decide (result _ = _)); done.
  - destruct (getConnector_touched _ _ _ _ _ Ht Hg) as (c' & Hg' & [->|[sr ->]]);
      eauto.
  - eapply Forall2_impl; [exact Ht|].
    intros c c' [->|[sr ->]]; done.
Qed.

(** Scenario S5 of the specification: the central system answers the
    start request with status [Blocked] and transaction id 99. *)
Lemma start_rejected_compensated_witness :
  let env := station (answering AuthorizationStatus.Blocked 99%Z)
               always_allowed true true in
  let w := world_with idle_connectors [] true RegistrationStatus.Accepted in
  let w' := (startTransaction env 1 "TAG01" w).2 in
  (startTransaction env 1 "TAG01" w).1 = AuthorizationStatus.Blocked
  ∧ (∃ req stop_req before between after,
       trace w'
       = trace w ++ before
         ++ [EvCall START_TRANSACTION_ACTION (PStartTransaction req) true
               true RegistrationStatus.Accepted]
         ++ between
         ++ [EvCall STOP_TRANSACTION_ACTION (PStopTransaction stop_req) true
               true RegistrationStatus.Accepted]
         ++ after
       ∧ count_events is_send (before ++ between ++ after) = 0
       ∧ StopTransactionReq.reason stop_req = Reason.DeAuthorized
       ∧ StopTransactionReq.meterStop stop_req
         = StartTransactionReq.meterStart req
       ∧ StopTransactionReq.transactionId stop_req = 99%Z)
  ∧ (∃ c', Connectors.getConnector (connectors w') 1 = Some (1, c')
           ∧ Connector.transaction_id c' = 0%Z
           ∧ Connector.transaction_start c' = 0%Z
           ∧ Connector.transaction_id_tag c' = "")
  ∧ Forall2 (λ c c',
       Connector.transaction_id c' = Connector.transaction_id c
       ∧ Connector.transaction_start c' = Connector.transaction_start c
       ∧ Connector.transaction_id_tag c' = Connector.transaction_id_tag c)
      (connectors w) (connectors w').
Proof.
  intros env w.
  apply (start_rejected_compensated env w 1 "TAG01" 1 (connector_with 1 0%Z ""));
    [lia | reflexivity | reflexivity | reflexivity | discriminate].
Defined.

(** ** Remote start *)

Lemma remote_start_run env w request cid p connector :
  RemoteStartTransactionReq.connectorId request = Some cid →
  cid ≠ 0 →
  Connectors.getConnector (connectors w) cid = Some (p, connector) →
  Connector.status connector ≠ ChargePointStatus.Unavailable →
  Connector.transaction_id connector = 0%Z →
  isTransactionAllowed env (connectors w) cid
    (RemoteStartTransactionReq.idTag request)
  = AuthorizationStatus.Accepted →
  let id_tag := RemoteStartTransactionReq.idTag request in
  let accepted := remoteStartTransactionRequested env cid id_tag in
  handleMessage_RemoteStartTransactionReq env request w
  = (to_RemoteStartStopStatus
       (accepted
        && match RemoteStartTransactionReq.chargingProfile request with
           | Some profile => installTxProfile env cid profile
           | None => true
           end),
     set_trace
       (trace w
        ++ EvRemoteStartTransactionRequested cid id_tag
           :: match RemoteStartTransactionReq.chargingProfile request with
              | Some profile =>
                  if accepted then [EvInstallTxProfile cid profile] else []
              | None => []
              end) w).
Proof.
  intros Hcid H0 Hg Hst Htid Ha id_tag accepted.
  unfold handleMessage_RemoteStartTransactionReq. rewrite Hcid.
  unfold Connectors.CONNECTOR_ID_CHARGE_POINT.
  rewrite decide_True by done.
  unfold getConnector, reservation_isTransactionAllowed. exec.
  rewrite Hg. exec. rewrite decide_True by done.
  rewrite decide_True by done. exec. rewrite Ha.
  rewrite decide_True by done. unfold log, modify. exec.
  fold id_tag accepted.
  destruct (RemoteStartTransactionReq.chargingProfile request) as [profile|];
    destruct accepted; exec; rewrite <- ?app_assoc, ?andb_true_r; done.
Qed.

Lemma remote_start_not_admissible env w request :
  (∀ cid, ¬ remote_start_admissible env w request cid) →
  handleMessage_RemoteStartTransactionReq env request w
  = (RemoteStartStopStatus.Rejected, w).
Proof.
  intros Hno. unfold handleMessage_RemoteStartTransactionReq.
  destruct (RemoteStartTransactionReq.connectorId request) as [cid|] eqn:Hcid;
    [|done].
  unfold Connectors.CONNECTOR_ID_CHARGE_POINT.
  destruct (decide (cid ≠ 0)) as [H0|]; [|done].
  unfold getConnector, reservation_isTransactionAllowed. exec.
  destruct (Connectors.getConnector (connectors w) cid) as [[p c]|] eqn:Hg;
    [|done]. exec.
  destruct (decide (Connector.status c ≠ _)) as [Hst|]; [|done].
  destruct (decide (Connector.transaction_id c = _)) as [Htid|]; [|done].
  exec.
  destruct (decide (isTransactionAllowed env _ _ _ = _)) as [Ha|]; [|done].
  destruct (Hno cid). split_and!; [done..|]. eauto 10.
Qed.

(** C8. The response to a RemoteStartTransaction request is [Rejected],
    the events handler not being asked and nothing else being done,
    unless the request names a connector other than 0 that exists, is
    not [Unavailable], holds no transaction, and for which the
    reservation manager allows the id tag. When these hold, the events
    handler is asked once, and the response is [Accepted] only if it
    accepts and the charging profile, when there is one, installs; so a
    profile that fails to install turns the response into [Rejected]. *)
Theorem remote_start_rejected_unless env w request :
  let r := handleMessage_RemoteStartTransactionReq env request w in
  let id_tag := RemoteStartTransactionReq.idTag request in
  ((∀ cid, ¬ remote_start_admissible env w request cid) →
   r = (RemoteStartStopStatus.Rejected, w))
  ∧ (∀ cid, remote_start_admissible env w request cid →
       ∃ after,
         trace r.2 = trace w ++ [EvRemoteStartTransactionRequested cid id_tag]
                     ++ after
         ∧ count_events is_remote_start_requested after = 0
         ∧ r.1 = to_RemoteStartStopStatus
                   (remoteStartTransactionRequested env cid id_tag
                    && match RemoteStartTransactionReq.chargingProfile request
                       with
                       | Some profile => installTxProfile env cid profile
                       | None => true
                       end))
  ∧ (∀ cid profile,
       remote_start_admissible env w request cid →
       remoteStartTransactionRequested env cid id_tag = true →
       RemoteStartTransactionReq.chargingProfile request = Some profile →
       installTxProfile env cid profile = false →
       r.1 = RemoteStartStopStatus.Rejected).
Proof.
  intros r id_tag. subst r. split_and!.
  - apply remote_start_not_admissible.
  - intros cid (Hcid & H0 & p & c & Hg & Hst & Htid & Ha).
    rewrite (remote_start_run _ _ _ _ _ _ Hcid H0 Hg Hst Htid Ha). simpl.
    eexists. split; [reflexivity|]. split; [|done].
    destruct (RemoteStartTransactionReq.chargingProfile request);
      [destruct (remoteStartTransactionRequested _ _ _)|]; done.
  - intros cid profile (Hcid & H0 & p & c & Hg & Hst & Htid & Ha) Hacc Hpr Hin.
    rewrite (remote_start_run _ _ _ _ _ _ Hcid H0 Hg Hst Htid Ha). simpl.
    fold id_tag. by rewrite Hacc, Hpr, Hin.
Qed.

(** Scenario S6 of the specification: connector 1 holds transaction 10
    and a remote start is asked for it. *)
Lemma remote_start_rejected_unless_witness :
  let env := station (answering AuthorizationStatus.Accepted 0%Z)
               always_allowed true true in
  let cs := [connector_with 0 0%Z ""; connector_with 1 10%Z "TAG00"] in
  let w := world_with cs [] true RegistrationStatus.Accepted in
  let request :=
    {| RemoteStartTransactionReq.connectorId := Some 1;
       RemoteStartTransactionReq.idTag := "X";
       RemoteStartTransactionReq.chargingProfile := None |} in
  handleMessage_RemoteStartTransactionReq env request w
  = (RemoteStartStopStatus.Rejected, w).
Proof.
  intros env cs w request.
  apply (proj1 (remote_start_rejected_unless env w request)).
  intros cid (Hcid & _ & p & c & Hg & _ & Htid & _).
  injection Hcid as <-. vm_compute in Hg. injection Hg as <- <-.
  discriminate Htid.
Defined.

(** ** The drainer, one request at a time *)

Lemma known_action_dec a : Decision (known_action a).
Proof. unfold known_action. apply _. Defined.

Lemma send_request_unknown env e w :
  ¬ known_action (action e) → send_request env e w = (CallResult.Failed, w).
Proof.
  unfold known_action, send_request. intros H.
  rewrite !decide_False by tauto. done.
Qed.

Lemma send_request_known env e w :
  known_action (action e) →
  let o := net env (calls w) in
  send_request env e w
  = (result o,
     set_connected (connected_after o)
       (set_calls (S (calls w))
          (set_trace
             (trace w
              ++ EvCall (action e) (payload e) false (connected w)
                   (registration_status w)
                 :: (if decide (action e = START_TRANSACTION_ACTION
                                ∧ result o = CallResult.Ok)
                     then start_response_events env (connectors w) (payload e)
                            (StartTransactionConf.idTagInfo (start_conf o))
                     else [])) w))).
Proof.
  intros Hk o. unfold send_request.
  destruct (decide (action e = START_TRANSACTION_ACTION)) as [Hs|Hs].
  - unfold msg_sender_call, log, modify. exec. fold o.
    destruct (decide (result o = CallResult.Ok)) as [Hok|Hko].
    + rewrite (decide_True (P := _ ∧ _)) by done.
      rewrite (bool_decide_eq_true_2 _ Hok). exec.
      unfold start_response_events, when, log, modify, getConnector. exec.
      set (info := StartTransactionConf.idTagInfo (start_conf o)).
      set (request := StartTransactionReq_fromJson env (payload e)).
      destruct (decide (IdTagInfo.status info ≠ AuthorizationStatus.ConcurrentTx));
        [rewrite bool_decide_eq_true_2 by done
        |rewrite bool_decide_eq_false_2 by done]; exec;
        (destruct (decide (IdTagInfo.status info ≠ AuthorizationStatus.Accepted));
         [rewrite bool_decide_eq_true_2 by done
         |rewrite bool_decide_eq_false_2 by done]; exec;
         [|by rewrite <- ?app_assoc, ?app_nil_r]);
        (destruct (Connectors.getConnector (connectors w) _) as [[p c]|]; exec;
         [|by rewrite <- ?app_assoc, ?app_nil_r]);
        (destruct (decide (Connector.transaction_id c = (-1)%Z
                           ∧ Connector.transaction_id_tag c
                             = StartTransactionReq.idTag request)) as [[H1 H2]|Hn];
         [rewrite !bool_decide_eq_true_2 by done; exec;
          by rewrite <- ?app_assoc
         |]);
        (destruct (decide (Connector.transaction_id c = (-1)%Z));
         [rewrite bool_decide_eq_true_2 by done;
          rewrite bool_decide_eq_false_2
            by (intros Heq; apply Hn; split; [assumption | exact Heq])
         |rewrite bool_decide_eq_false_2 by done]; exec;
         by rewrite <- ?app_assoc, ?app_nil_r).
    + rewrite (decide_False (P := _ ∧ _)) by (by intros [_ ?]).
      rewrite (bool_decide_eq_false_2 _ Hko). exec. done.
  - rewrite (decide_False (P := _ ∧ _)) by (by intros [? _]).
    assert (Hrun : (o ← msg_sender_call env (action e) (payload e) false;
                    mret (result o)) w
                   = (result o,
                      set_connected (connected_after o)
                        (set_calls (S (calls w))
                           (set_trace
                              (trace w
                               ++ [EvCall (action e) (payload e) false
                                     (connected w) (registration_status w)])
                              w)))).
    { unfold msg_sender_call, log, modify. exec. done. }
    destruct (decide (action e = STOP_TRANSACTION_ACTION)); [exact Hrun|].
    destruct (decide (action e = METER_VALUES_ACTION)); [exact Hrun|].
    unfold known_action in Hk. tauto.
Qed.

Lemma start_response_bookkeeping env cs pl info :
  Forall bookkeeping (start_response_events env cs pl info).
Proof.
  unfold start_response_events. apply Forall_app. split.
  - destruct (decide _); repeat constructor.
  - destruct (decide _); [|constructor].
    destruct (Connectors.getConnector _ _) as [[? c]|]; [|constructor].
    destruct (decide _); repeat constructor.
Qed.

Lemma handle_result_ok env w :
  handle_result env CallResult.Ok w = (tt, popped w).
Proof. done. Qed.

Lemma handle_result_failed env w :
  handle_result env CallResult.Failed w
  = (tt,
     let count := (request_retry_count w + 1)%N in
     if (transactionMessageAttempts env <? count)%N then popped w
     else if connected w then
       set_trace
         (trace w ++ [EvTimerRestart (Seconds (transactionMessageRetryInterval env))])
         (set_request_retry_timer
            (Some (Seconds (transactionMessageRetryInterval env)))
            (set_request_retry_count count w))
     else set_request_retry_count count w).
Proof.
  unfold handle_result. rewrite decide_False by done.
  unfold modify, msg_sender_isConnected, gets. exec.
  destruct (_ <? _)%N; [done|].
  unfold when, timer_restart, log, modify. exec.
  destruct (connected w); done.
Qed.

Lemma process_request_empty env w :
  requests_fifo w = [] → process_request env w = (tt, w).
Proof. unfold process_request, fifo_front, gets. exec. by intros ->. Qed.

Lemma process_request_head env w e rest :
  requests_fifo w = e :: rest →
  process_request env w
  = handle_result env (send_request env e w).1 (send_request env e w).2.
Proof.
  unfold process_request, fifo_front, gets. exec. intros ->. simpl.
  by destruct (send_request env e w).
Qed.

(** C7. When the drainer sends the StartTransaction request at the head
    of the FIFO and the send succeeds: unless the status of the response
    is [ConcurrentTx], the authorization cache is updated with the id tag
    of the request and the [idTagInfo] of the response; and if the status
    is not [Accepted] and the connector of the request holds the
    provisional transaction id -1 with the id tag of the request,
    [transactionDeAuthorized] is called once, for that connector. The
    request is then popped and the retry counter reset. *)
Theorem drained_start_response env w e rest :
  requests_fifo w = e :: rest →
  action e = START_TRANSACTION_ACTION →
  result (net env (calls w)) = CallResult.Ok →
  let info := StartTransactionConf.idTagInfo (start_conf (net env (calls w))) in
  let request := StartTransactionReq_fromJson env (payload e) in
  let w' := (process_request env w).2 in
  ∃ evs,
    trace w'
    = trace w
      ++ [EvCall (action e) (payload e) false (connected w)
            (registration_status w)]
      ++ evs ++ [EvFifoPop]
    ∧ Forall bookkeeping evs
    ∧ (IdTagInfo.status info ≠ AuthorizationStatus.ConcurrentTx →
       EvAuthentUpdate (StartTransactionReq.idTag request) info ∈ evs)
    ∧ (IdTagInfo.status info ≠ AuthorizationStatus.Accepted →
       ∀ p connector,
         Connectors.getConnector (connectors w)
           (StartTransactionReq.connectorId request) = Some (p, connector) →
         Connector.transaction_id connector = (-1)%Z →
         Connector.transaction_id_tag connector
         = StartTransactionReq.idTag request →
         count_events is_de_authorized evs = 1
         ∧ EvTransactionDeAuthorized (StartTransactionReq.connectorId request)
           ∈ evs)
    ∧ (IdTagInfo.status info = AuthorizationStatus.Accepted →
       count_events is_de_authorized evs = 0)
    ∧ requests_fifo w' = rest
    ∧ request_retry_count w' = 0%N.
Proof.
  intros Hfifo Hact Hok info request.
  rewrite (process_request_head _ _ _ _ Hfifo).
  rewrite send_request_known by (by left). simpl fst. simpl snd.
  rewrite Hok, handle_result_ok, (decide_True (P := _ ∧ _)) by done.
  fold info. simpl. rewrite Hfifo. simpl.
  exists (start_response_events env (connectors w) (payload e) info).
  split_and!; try done.
  - by rewrite <- app_assoc.
  - apply start_response_bookkeeping.
  - intros Hc. unfold start_response_events. fold request.
    rewrite (decide_True (P := _ ≠ AuthorizationStatus.ConcurrentTx)) by done.
    apply elem_of_app. left. apply list_elem_of_singleton. done.
  - intros Hrej p c Hg Htid Htag. unfold start_response_events. fold request.
    rewrite (decide_True (P := _ ≠ AuthorizationStatus.Accepted)) by done.
    rewrite Hg, (decide_True (P := _ ∧ _)) by done.
    destruct (getConnector_lookup _ _ _ _ Hg) as [_ ->].
    split.
    + destruct (decide (_ ≠ AuthorizationStatus.ConcurrentTx)); done.
    + apply elem_of_app. right. apply list_elem_of_singleton. done.
  - intros Hacc. unfold start_response_events.
    rewrite (decide_False (P := _ ≠ AuthorizationStatus.Accepted))
      by (by intros []).
    destruct (decide (_ ≠ AuthorizationStatus.ConcurrentTx)); done.
Qed.

(** A StartTransaction request was queued while the link was down
    (connector 2 holds the provisional id); the link is back and the
    central system answers [Blocked]. *)
Lemma drained_start_response_witness :
  let env := station (answering AuthorizationStatus.Blocked 7%Z)
               always_allowed true true in
  let e :=
    {| action := START_TRANSACTION_ACTION;
       payload :=
         PStartTransaction
           {| StartTransactionReq.connectorId := 2;
              StartTransactionReq.idTag := "TAG02";
              StartTransactionReq.meterStart := 100%Z;
              StartTransactionReq.reservationId := None;
              StartTransactionReq.timestamp := 1000%Z |} |} in
  let cs := [connector_with 0 0%Z ""; connector_with 1 0%Z "";
             connector_with 2 (-1)%Z "TAG02"] in
  let w := world_with cs [e] true RegistrationStatus.Accepted in
  let info := StartTransactionConf.idTagInfo (start_conf (net env (calls w))) in
  let request := StartTransactionReq_fromJson env (payload e) in
  let w' := (process_request env w).2 in
  ∃ evs,
    trace w'
    = trace w
      ++ [EvCall (action e) (payload e) false (connected w)
            (registration_status w)]
      ++ evs ++ [EvFifoPop]
    ∧ Forall bookkeeping evs
    ∧ (IdTagInfo.status info ≠ AuthorizationStatus.ConcurrentTx →
       EvAuthentUpdate (StartTransactionReq.idTag request) info ∈ evs)
    ∧ (IdTagInfo.status info ≠ AuthorizationStatus.Accepted →
       ∀ p connector,
         Connectors.getConnector (connectors w)
           (StartTransactionReq.connectorId request) = Some (p, connector) →
         Connector.transaction_id connector = (-1)%Z →
         Connector.transaction_id_tag connector
         = StartTransactionReq.idTag request →
         count_events is_de_authorized evs = 1
         ∧ EvTransactionDeAuthorized (StartTransactionReq.connectorId request)
           ∈ evs)
    ∧ (IdTagInfo.status info = AuthorizationStatus.Accepted →
       count_events is_de_authorized evs = 0)
    ∧ requests_fifo w' = []
    ∧ request_retry_count w' = 0%N.
Proof.
  intros env e cs w.
  apply (drained_start_response env w e []); reflexivity.
Defined.

(** ** What one turn of the do-while changes *)

Lemma send_request_fields env e w :
  let r := send_request env e w in
  let o := net env (calls w) in
  connectors r.2 = connectors w
  ∧ database r.2 = database w
  ∧ requests_fifo r.2 = requests_fifo w
  ∧ request_retry_count r.2 = request_retry_count w
  ∧ request_retry_timer r.2 = request_retry_timer w
  ∧ registration_status r.2 = registration_status w
  ∧ ((known_action (action e)
      ∧ r.1 = result o
      ∧ calls r.2 = S (calls w)
      ∧ connected r.2 = connected_after o
      ∧ ∃ bk, Forall bookkeeping bk
              ∧ trace r.2
                = trace w
                  ++ EvCall (action e) (payload e) false (connected w)
                       (registration_status w) :: bk)
     ∨ (¬ known_action (action e) ∧ r = (CallResult.Failed, w))).
Proof.
  intros r o. subst r.
  destruct (known_action_dec (action e)) as [Hk|Hk].
  - rewrite send_request_known by done. fold o. simpl.
    split_and!; try done. left. split_and!; try done.
    eexists. split; [|reflexivity].
    destruct (decide _); [apply start_response_bookkeeping | constructor].
  - rewrite send_request_unknown by done. simpl.
    split_and!; try done. by right.
Qed.

Lemma handle_result_fields env res w :
  let w' := (handle_result env res w).2 in
  let count := (request_retry_count w + 1)%N in
  connectors w' = connectors w
  ∧ database w' = database w
  ∧ connected w' = connected w
  ∧ registration_status w' = registration_status w
  ∧ calls w' = calls w
  ∧ (((res = CallResult.Ok ∨ (transactionMessageAttempts env < count)%N)
      ∧ w' = popped w)
     ∨ (res = CallResult.Failed
        ∧ (count ≤ transactionMessageAttempts env)%N
        ∧ requests_fifo w' = requests_fifo w
        ∧ request_retry_count w' = count
        ∧ ((connected w = true
            ∧ request_retry_timer w'
              = Some (Seconds (transactionMessageRetryInterval env))
            ∧ trace w'
              = trace w
                ++ [EvTimerRestart
                      (Seconds (transactionMessageRetryInterval env))])
           ∨ (connected w = false
              ∧ request_retry_timer w' = request_retry_timer w
              ∧ trace w' = trace w)))).
Proof.
  intros w' count. subst w'. destruct res.
  - rewrite handle_result_ok. simpl. split_and!; try done. left. auto.
  - rewrite handle_result_failed. simpl. fold count.
    destruct (N.ltb_spec (transactionMessageAttempts env) count).
    + split_and!; try done. left. auto.
    + destruct (connected w) eqn:Hup; simpl;
        (split_and!; try done); right; split_and!; try done; auto.
Qed.

Lemma loop_condition_run w : loop_condition w = (loops w, w).
Proof. done. Qed.

Lemma do_while_unfold env fuel w :
  do_while env fuel w
  = let w1 := turn env w in
    if loops w1 then
      match fuel with
      | S fuel => do_while env fuel w1
      | O => (false, w1)
      end
    else (true, w1).
Proof.
  unfold turn. destruct fuel; cbn [do_while]; unfold mbind, St_bind;
    destruct (process_request env w) as [[] w1]; cbn [snd];
    rewrite loop_condition_run; by destruct (loops w1).
Qed.

(** A turn after which the do-while goes on has popped a request. *)
Lemma turn_shortens env w :
  loops (turn env w) = true →
  length (requests_fifo (turn env w)) < length (requests_fifo w).
Proof.
  unfold turn.
  destruct (requests_fifo w) as [|e rest] eqn:Hfifo.
  - rewrite process_request_empty by done. simpl.
    unfold loops. rewrite Hfifo. simpl. done.
  - rewrite (process_request_head _ _ _ _ Hfifo).
    destruct (send_request_fields env e w)
      as (_ & _ & Hf & _ & _ & _ & _).
    destruct (handle_result_fields env (send_request env e w).1
                (send_request env e w).2)
      as (_ & _ & Hup & _ & _ & [[_ ->]|(_ & _ & _ & _ & Hkept)]).
    + intros _. simpl. rewrite Hf, Hfifo. simpl. lia.
    + unfold loops. destruct Hkept as [(_ & -> & _)|(Hdown & _ & _)].
      * rewrite (bool_decide_eq_true_2 (is_Some (Some _))) by eauto.
        simpl. rewrite andb_false_r. done.
      * rewrite Hup, Hdown, andb_false_r. done.
Qed.

(** The do-while of [processFifoRequest] ends: with as many turns to
    spare as the FIFO has requests, it stops because its condition
    fails. *)
Lemma do_while_ends_within env fuel w :
  length (requests_fifo w) ≤ fuel → (do_while env fuel w).1 = true.
Proof.
  revert w. induction fuel as [|fuel IH]; intros w Hlen;
    rewrite do_while_unfold; simpl;
    destruct (loops (turn env w)) eqn:Hloop; try done;
    apply turn_shortens in Hloop.
  - lia.
  - apply IH. lia.
Qed.

Lemma do_while_ends env w :
  (do_while env (length (requests_fifo w)) w).1 = true.
Proof. by apply do_while_ends_within. Qed.

(** ** processFifoRequest: the gates *)

Lemma not_send_gated e : is_send e = false → gated e.
Proof. by destruct e. Qed.

Lemma handle_result_trace env res w :
  ∃ evs, trace (handle_result env res w).2 = trace w ++ evs
         ∧ Forall (λ e, is_send e = false) evs.
Proof.
  destruct (handle_result_fields env res w)
    as (_ & _ & _ & _ & _ & [[_ ->]|(_ & _ & _ & _ & [(_ & _ & ->)|(_ & _ & ->)])]).
  - eexists. split; [reflexivity|]. repeat constructor.
  - eexists. split; [reflexivity|]. repeat constructor.
  - exists []. by rewrite app_nil_r.
Qed.

Lemma turn_registration env w :
  registration_status (turn env w) = registration_status w.
Proof.
  unfold turn. destruct (requests_fifo w) as [|e rest] eqn:Hfifo.
  - by rewrite process_request_empty.
  - rewrite (process_request_head _ _ _ _ Hfifo).
    destruct (send_request_fields env e w) as (_ & _ & _ & _ & _ & Hr & _).
    destruct (handle_result_fields env (send_request env e w).1
                (send_request env e w).2) as (_ & _ & _ & -> & _).
    done.
Qed.

Lemma turn_gated env w :
  connected w = true →
  registration_status w = RegistrationStatus.Accepted →
  ∃ evs, trace (turn env w) = trace w ++ evs ∧ Forall gated evs.
Proof.
  intros Hup Hreg. unfold turn.
  destruct (requests_fifo w) as [|e rest] eqn:Hfifo.
  - rewrite process_request_empty by done. exists []. by rewrite app_nil_r.
  - rewrite (process_request_head _ _ _ _ Hfifo).
    destruct (handle_result_trace env (send_request env e w).1
                (send_request env e w).2) as (hs & -> & Hhs).
    destruct (send_request_fields env e w)
      as (_ & _ & _ & _ & _ & _ & [(_ & _ & _ & _ & bk & Hbk & ->)|(_ & ->)]).
    + eexists. rewrite <- app_assoc. split; [reflexivity|].
      rewrite Hup, Hreg. apply Forall_app. split.
      * constructor; [done|].
        eapply Forall_impl; [exact Hbk|]. intros x [Hx _].
        by apply not_send_gated.
      * eapply Forall_impl; [exact Hhs|]. apply not_send_gated.
    + simpl. eexists. split; [reflexivity|].
      eapply Forall_impl; [exact Hhs|]. apply not_send_gated.
Qed.

Lemma loops_connected w : loops w = true → connected w = true.
Proof. unfold loops. by intros [_ ?]%andb_prop. Qed.

Lemma do_while_gated env fuel w :
  connected w = true →
  registration_status w = RegistrationStatus.Accepted →
  ∃ evs, trace (do_while env fuel w).2 = trace w ++ evs ∧ Forall gated evs.
Proof.
  revert w. induction fuel as [|fuel IH]; intros w Hup Hreg;
    rewrite do_while_unfold; simpl;
    destruct (turn_gated env w Hup Hreg) as (evs & Htr & Hevs);
    destruct (loops (turn env w)) eqn:Hloop; simpl; eauto.
  destruct (IH (turn env w)) as (evs' & Htr' & Hevs').
  - by apply loops_connected.
  - by rewrite turn_registration.
  - exists (evs ++ evs'). rewrite Htr', Htr, app_assoc.
    split; [done|]. by apply Forall_app.
Qed.

Lemma processFifoRequest_run env w :
  processFifoRequest env w
  = (tt,
     if connected w then
       if decide (registration_status w = RegistrationStatus.Accepted) then
         (do_while env (length (requests_fifo w)) w).2
       else
         set_trace (trace w ++ [EvTimerRestart (Milliseconds 250)])
           (set_request_retry_timer (Some (Milliseconds 250)) w)
     else w).
Proof.
  unfold processFifoRequest, msg_sender_isConnected, gets, fifo_size. exec.
  destruct (connected w); [|done]. exec.
  destruct (decide _); [|done]. exec.
  by destruct (do_while env (length (requests_fifo w)) w).
Qed.

Lemma no_send_count evs :
  Forall (λ e, is_send e = false) evs → count_events is_send evs = 0.
Proof. induction 1 as [|e evs He _ IH]; simpl; [done|]. by rewrite He. Qed.

(** C3. [processFifoRequest] does nothing at all when the link is down;
    when the link is up and the registration status is not [Accepted] it
    restarts the retry timer with 250 ms and leaves everything else, the
    FIFO included, as it is; so in both cases it makes no call. Every
    call it makes is made with the link up and the registration status
    [Accepted]. *)
Theorem process_fifo_gated env w :
  let w' := (processFifoRequest env w).2 in
  (connected w = false → w' = w)
  ∧ (connected w = true →
     registration_status w ≠ RegistrationStatus.Accepted →
     w' = set_trace (trace w ++ [EvTimerRestart (Milliseconds 250)])
            (set_request_retry_timer (Some (Milliseconds 250)) w)
     ∧ request_retry_timer w' = Some (Milliseconds 250)
     ∧ requests_fifo w' = requests_fifo w
     ∧ calls w' = calls w)
  ∧ ∃ evs,
      trace w' = trace w ++ evs
      ∧ Forall gated evs
      ∧ (connected w = false
         ∨ registration_status w ≠ RegistrationStatus.Accepted →
         count_events is_send evs = 0).
Proof.
  intros w'. subst w'. rewrite processFifoRequest_run. simpl.
  split_and!.
  - by intros ->.
  - intros -> Hreg. by rewrite decide_False.
  - destruct (connected w) eqn:Hup.
    + destruct (decide (registration_status w = RegistrationStatus.Accepted))
        as [Hreg|Hreg].
      * destruct (do_while_gated env (length (requests_fifo w)) w Hup Hreg)
          as (evs & Htr & Hevs).
        exists evs. split_and!; [done..|]. by intros [|].
      * eexists. split; [reflexivity|]. split; [repeat constructor|done].
    + exists []. rewrite app_nil_r. split_and!; [done | constructor | done].
Qed.

(** The charge point is connected but its registration is pending, and
    a request waits in the FIFO. *)
Lemma process_fifo_gated_witness :
  let env := station (answering AuthorizationStatus.Accepted 1%Z)
               always_allowed true true in
  let e := {| action := METER_VALUES_ACTION; payload := PMeterValues "{}" |} in
  let w := world_with idle_connectors [e] true RegistrationStatus.Pending in
  let w' := (processFifoRequest env w).2 in
  w' = set_trace (trace w ++ [EvTimerRestart (Milliseconds 250)])
         (set_request_retry_timer (Some (Milliseconds 250)) w)
  ∧ request_retry_timer w' = Some (Milliseconds 250)
  ∧ requests_fifo w' = requests_fifo w
  ∧ calls w' = calls w.
Proof.
  intros env e w.
  apply (proj1 (proj2 (process_fifo_gated env w))); [reflexivity | discriminate].
Defined.

(** ** A request with an unknown action *)

Lemma turn_unknown env w e rest :
  requests_fifo w = e :: rest →
  ¬ known_action (action e) →
  process_request env w = handle_result env CallResult.Failed w.
Proof.
  intros Hfifo Hk. rewrite (process_request_head _ _ _ _ Hfifo).
  by rewrite send_request_unknown.
Qed.

(** One pass of the drainer on a request with an unknown action, the
    counter staying within TransactionMessageAttempts. *)
Lemma pass_unknown_kept env w e rest :
  requests_fifo w = e :: rest →
  ¬ known_action (action e) →
  connected w = true →
  registration_status w = RegistrationStatus.Accepted →
  (request_retry_count w + 1 ≤ transactionMessageAttempts env)%N →
  (processFifoRequest env w).2
  = set_trace
      (trace w ++ [EvTimerRestart (Seconds (transactionMessageRetryInterval env))])
      (set_request_retry_timer
         (Some (Seconds (transactionMessageRetryInterval env)))
         (set_request_retry_count (request_retry_count w + 1)%N w)).
Proof.
  intros Hfifo Hk Hup Hreg Hle.
  rewrite processFifoRequest_run. simpl.
  rewrite Hup, decide_True by done.
  rewrite do_while_unfold. unfold turn.
  rewrite (turn_unknown _ _ _ _ Hfifo Hk), handle_result_failed. simpl.
  rewrite (proj2 (N.ltb_ge _ _)) by lia. rewrite Hup.
  unfold loops. simpl.
  by rewrite andb_false_r.
Qed.

(** One pass of the drainer on a request with an unknown action, the
    counter going beyond TransactionMessageAttempts. *)
Lemma pass_unknown_popped env w e rest :
  requests_fifo w = e :: rest →
  ¬ known_action (action e) →
  connected w = true →
  registration_status w = RegistrationStatus.Accepted →
  (transactionMessageAttempts env < request_retry_count w + 1)%N →
  (processFifoRequest env w).2
  = if loops (popped w) then (do_while env (length rest) (popped w)).2
    else popped w.
Proof.
  intros Hfifo Hk Hup Hreg Hlt.
  rewrite processFifoRequest_run. simpl.
  rewrite Hup, decide_True by done.
  rewrite do_while_unfold. unfold turn.
  rewrite (turn_unknown _ _ _ _ Hfifo Hk), handle_result_failed. simpl.
  rewrite (proj2 (N.ltb_lt _ _)) by lia.
  rewrite Hfifo. simpl. by destruct (loops (popped w)).
Qed.

Lemma retry_timer_callback_run env w :
  retry_timer_callback env w
  = processFifoRequest env (set_request_retry_timer None w).
Proof. done. Qed.

(** The retry timer fires [k] times in a row on a request with an unknown
    action, the counter staying within TransactionMessageAttempts. *)
Lemma firings_unknown_kept env e rest k w :
  requests_fifo w = e :: rest →
  ¬ known_action (action e) →
  connected w = true →
  registration_status w = RegistrationStatus.Accepted →
  k ≤ N.to_nat (transactionMessageAttempts env - request_retry_count w) →
  let wk := Nat.iter k (λ w, (retry_timer_callback env w).2) w in
  requests_fifo wk = e :: rest
  ∧ request_retry_count wk = (request_retry_count w + N.of_nat k)%N
  ∧ calls wk = calls w
  ∧ connected wk = true
  ∧ registration_status wk = RegistrationStatus.Accepted
  ∧ connectors wk = connectors w
  ∧ database wk = database w
  ∧ (0 < k →
     request_retry_timer wk
     = Some (Seconds (transactionMessageRetryInterval env)))
  ∧ trace wk
    = trace w
      ++ replicate k
           (EvTimerRestart (Seconds (transactionMessageRetryInterval env))).
Proof.
  intros Hfifo Hk Hup Hreg. induction k as [|k IH]; intros Hle wk; subst wk.
  - simpl. split_and!; [done | lia | done.. | lia | by rewrite app_nil_r].
  - destruct IH as (Hf & Hc & Hcalls & Hu & Hr & Hcs & Hdb & _ & Htr); [lia|].
    simpl Nat.iter. rewrite retry_timer_callback_run.
    rewrite (pass_unknown_kept env _ e rest) by (simpl; try done; lia).
    rewrite replicate_S_end, app_assoc. simpl. rewrite Htr, Hc.
    split_and!; [done | lia | done..].
Qed.

(** C9. A request at the head of the FIFO whose action is none of
    StartTransaction, StopTransaction and MeterValues is handled by
    [processFifoRequest] as a failed send for which nothing was sent, the
    count of the retries included. While the counter, once incremented, is
    within TransactionMessageAttempts, the request stays at the head, the
    counter is one more and the retry timer is started; at the pass where
    the counter goes beyond TransactionMessageAttempts the request is
    popped, the counter is reset and the do-while goes on with the rest of
    the FIFO. So the request holds the head of the FIFO while the retry
    timer fires TransactionMessageAttempts times less the counter, and the
    next firing removes it; no call is made for it at any time. *)
Theorem unknown_action_counted_as_failure env w e rest :
  requests_fifo w = e :: rest →
  ¬ known_action (action e) →
  connected w = true →
  registration_status w = RegistrationStatus.Accepted →
  let count := (request_retry_count w + 1)%N in
  let interval := Seconds (transactionMessageRetryInterval env) in
  let fire := λ w, (retry_timer_callback env w).2 in
  let n :=
    N.to_nat (transactionMessageAttempts env - request_retry_count w) in
  let w' := (processFifoRequest env w).2 in
  ((count ≤ transactionMessageAttempts env)%N →
   requests_fifo w' = e :: rest
   ∧ request_retry_count w' = count
   ∧ request_retry_timer w' = Some interval
   ∧ calls w' = calls w
   ∧ trace w' = trace w ++ [EvTimerRestart interval])
  ∧ ((transactionMessageAttempts env < count)%N →
     ∃ w1,
       requests_fifo w1 = rest
       ∧ request_retry_count w1 = 0%N
       ∧ request_retry_timer w1 = request_retry_timer w
       ∧ connected w1 = true
       ∧ calls w1 = calls w
       ∧ trace w1 = trace w ++ [EvFifoPop]
       ∧ w' = if loops w1 then (do_while env (length rest) w1).2 else w1)
  ∧ (∀ k, k ≤ n →
       requests_fifo (Nat.iter k fire w) = e :: rest
       ∧ request_retry_count (Nat.iter k fire w)
         = (request_retry_count w + N.of_nat k)%N
       ∧ calls (Nat.iter k fire w) = calls w
       ∧ trace (Nat.iter k fire w)
         = trace w ++ replicate k (EvTimerRestart interval))
  ∧ ∃ w1,
      requests_fifo w1 = rest
      ∧ request_retry_count w1 = 0%N
      ∧ request_retry_timer w1 = None
      ∧ connected w1 = true
      ∧ registration_status w1 = RegistrationStatus.Accepted
      ∧ connectors w1 = connectors w
      ∧ database w1 = database w
      ∧ calls w1 = calls w
      ∧ trace w1
        = trace w ++ replicate n (EvTimerRestart interval) ++ [EvFifoPop]
      ∧ Nat.iter (S n) fire w = (processFifoRequest env w1).2.
Proof.
  intros Hfifo Hk Hup Hreg count interval fire n w'. split_and!.
  - intros Hle. subst w'.
    rewrite (pass_unknown_kept env w e rest) by done. by simpl.
  - intros Hlt. exists (popped w). subst w'.
    rewrite (pass_unknown_popped env w e rest) by done.
    simpl. by rewrite Hfifo.
  - intros k Hle.
    by destruct (firings_unknown_kept env e rest k w Hfifo Hk Hup Hreg Hle)
      as (? & ? & ? & _ & _ & _ & _ & _ & ?).
  - destruct (firings_unknown_kept env e rest n w Hfifo Hk Hup Hreg
                ltac:(done))
      as (Hf & Hc & Hcalls & Hu & Hr & Hcs & Hdb & _ & Htr).
    fold fire in Hf, Hc, Hcalls, Hu, Hr, Hcs, Hdb, Htr.
    fold interval in Htr.
    set (wn := set_request_retry_timer None (Nat.iter n fire w)).
    exists (popped wn).
    assert (Hpass : fire (Nat.iter n fire w)
                    = if loops (popped wn)
                      then (do_while env (length rest) (popped wn)).2
                      else popped wn).
    { unfold fire at 1. rewrite retry_timer_callback_run.
      apply (pass_unknown_popped env wn e rest); subst wn; simpl;
        try done. rewrite Hc. subst count n. lia. }
    subst wn. simpl. rewrite Hf, Htr, <- app_assoc.
    split_and!; try done.
    rewrite Hpass, processFifoRequest_run. simpl.
    rewrite Hu, Hr, decide_True by done. unfold loops. simpl.
    rewrite Hf, Hu. simpl tail.
    destruct rest as [|e' rest']; [|done].
    rewrite bool_decide_eq_false_2 by (simpl; lia).
    rewrite do_while_unfold. unfold turn.
    rewrite process_request_empty by (simpl; by rewrite Hf).
    unfold loops. simpl. by rewrite Hf.
Qed.

(** The drainer is handed a FIFO with, at its head, a request whose action
    it does not know, before a MeterValues request;
    TransactionMessageAttempts is 3. *)
Lemma unknown_action_counted_as_failure_witness :
  let env := station (answering AuthorizationStatus.Accepted 1%Z)
               always_allowed true true in
  let e := {| action := "DataTransfer"; payload := PRaw "{}" |} in
  let rest := [{| action := METER_VALUES_ACTION;
                  payload := PMeterValues "{}" |}] in
  let w := world_with idle_connectors (e :: rest) true
             RegistrationStatus.Accepted in
  let fire := λ w, (retry_timer_callback env w).2 in
  let w' := (processFifoRequest env w).2 in
  (requests_fifo w' = e :: rest
   ∧ request_retry_count w' = 1%N
   ∧ request_retry_timer w' = Some (Seconds 60)
   ∧ calls w' = 0
   ∧ trace w' = [EvTimerRestart (Seconds 60)])
  ∧ requests_fifo (Nat.iter 3 fire w) = e :: rest
  ∧ request_retry_count (Nat.iter 3 fire w) = 3%N
  ∧ calls (Nat.iter 3 fire w) = 0.
Proof.
  intros env e rest w fire w'.
  assert (Hk : ¬ known_action (action e)).
  { unfold known_action. simpl. intros [H|[H|H]]; discriminate H. }
  pose proof (unknown_action_counted_as_failure env w e rest
                eq_refl Hk eq_refl eq_refl) as (Hkept & _ & Hfire & _).
  split.
  - apply Hkept. vm_compute. discriminate.
  - destruct (Hfire 3) as (? & ? & ? & _); [vm_compute; lia|]. done.
Defined.

(** The same FIFO, one pass of the drainer: the request with the unknown
    action is not removed, it is still at the head of the FIFO, with one
    failure counted for it and the retry timer started for the next
    attempt. *)
Lemma unknown_action_kept_at_head :
  let env := station (answering AuthorizationStatus.Accepted 1%Z)
               always_allowed true true in
  let e := {| action := "DataTransfer"; payload := PRaw "{}" |} in
  let rest := [{| action := METER_VALUES_ACTION;
                  payload := PMeterValues "{}" |}] in
  let w := world_with idle_connectors (e :: rest) true
             RegistrationStatus.Accepted in
  let w' := (processFifoRequest env w).2 in
  ¬ known_action (action e)
  ∧ requests_fifo w' = e :: rest
  ∧ requests_fifo w' ≠ rest
  ∧ request_retry_count w' = 1%N
  ∧ request_retry_timer w' = Some (Seconds 60)
  ∧ calls w' = calls w.
Proof.
  intros env e rest w w'. split.
  - unfold known_action. simpl. intros [H|[H|H]]; discriminate H.
  - by vm_compute.
Qed.

(** ** The retry counter and the log *)

Lemma scan_app bound l1 l2 :
  scan bound (l1 ++ l2) = fold_left (scan_step bound) l2 (scan bound l1).
Proof. unfold scan. apply fold_left_app. Qed.

Lemma scan_step_aside bound s e : aside e → scan_step bound s e = s.
Proof. intros [Hp Hd]. unfold scan_step. by rewrite Hp, Hd. Qed.

Lemma scan_aside bound evs s :
  Forall aside evs → fold_left (scan_step bound) evs s = s.
Proof.
  induction 1 as [|e evs He _ IH]; simpl; [done|].
  by rewrite scan_step_aside.
Qed.

Lemma bookkeeping_aside e : bookkeeping e → aside e.
Proof. destruct e; intros [? ?]; split; done. Qed.

Lemma quiet_refl w : quiet w w.
Proof. split; [done|]. exists []. by rewrite app_nil_r. Qed.

Lemma quiet_trans w1 w2 w3 : quiet w1 w2 → quiet w2 w3 → quiet w1 w3.
Proof.
  intros [Hc1 (evs1 & Ht1 & He1)] [Hc2 (evs2 & Ht2 & He2)].
  split; [congruence|]. exists (evs1 ++ evs2).
  rewrite Ht2, Ht1, app_assoc. split; [done|]. by apply Forall_app.
Qed.

Lemma quiet_inv env w w' : quiet w w' → drainer_inv env w → drainer_inv env w'.
Proof.
  intros [Hc (evs & Ht & He)] (s & Hs & Hle & Hmax).
  exists s. rewrite Ht, scan_app, Hs, scan_aside, Hc by done. done.
Qed.

Lemma new_inv env cs db fifo up registration :
  drainer_inv env (TransactionManager_new cs db fifo up registration).
Proof. exists 0. simpl. split_and!; [done | lia | lia]. Qed.

Lemma send_request_inv env e w :
  drainer_inv env w →
  ∃ s, scan (attempts_bound env) (trace (send_request env e w).2) = (s, true)
       ∧ (N.of_nat s ≤ request_retry_count (send_request env e w).2 + 1)%N.
Proof.
  intros (s & Hs & Hle & Hmax).
  destruct (send_request_fields env e w)
    as (_ & _ & _ & Hc & _ & _
        & [(_ & _ & _ & _ & bk & Hbk & ->)|(_ & ->)]).
  - exists (S s). rewrite Hc, scan_app, Hs. simpl.
    rewrite scan_aside
      by (eapply Forall_impl; [exact Hbk | apply bookkeeping_aside]).
    unfold scan_step. simpl.
    rewrite bool_decide_eq_true_2 by (unfold attempts_bound; lia).
    split; [done | lia].
  - exists s. simpl. split; [done | lia].
Qed.

Lemma handle_result_inv env res w :
  (∃ s, scan (attempts_bound env) (trace w) = (s, true)
        ∧ (N.of_nat s ≤ request_retry_count w + 1)%N) →
  drainer_inv env (handle_result env res w).2.
Proof.
  intros (s & Hs & Hle).
  destruct (handle_result_fields env res w)
    as (_ & _ & _ & _ & _ & [[_ ->]|(_ & Hmax & _ & Hc & Hkept)]).
  - exists 0. simpl. rewrite scan_app, Hs. simpl. split_and!; [done | lia | lia].
  - exists s. rewrite Hc. split_and!; [|lia|lia].
    destruct Hkept as [(_ & _ & ->)|(_ & _ & ->)]; [|done].
    by rewrite scan_app, Hs.
Qed.

Lemma turn_inv env w : drainer_inv env w → drainer_inv env (turn env w).
Proof.
  intros Hinv. unfold turn.
  destruct (requests_fifo w) as [|e rest] eqn:Hfifo.
  - by rewrite process_request_empty.
  - rewrite (process_request_head _ _ _ _ Hfifo).
    by apply handle_result_inv, send_request_inv.
Qed.

Lemma do_while_inv env fuel w :
  drainer_inv env w → drainer_inv env (do_while env fuel w).2.
Proof.
  revert w. induction fuel as [|fuel IH]; intros w Hinv;
    rewrite do_while_unfold; simpl;
    destruct (loops (turn env w)); simpl; auto using turn_inv.
Qed.

Lemma processFifoRequest_inv env w :
  drainer_inv env w → drainer_inv env (processFifoRequest env w).2.
Proof.
  intros Hinv. rewrite processFifoRequest_run. simpl.
  destruct (connected w); [|done].
  destruct (decide _); [by apply do_while_inv|].
  eapply quiet_inv; [|exact Hinv].
  split; [done|]. eexists. split; [reflexivity|]. repeat constructor.
Qed.

(** ** Everything but the drainer leaves the retry state alone *)

Lemma quiet_log e w : aside e → quiet w (set_trace (trace w ++ [e]) w).
Proof. intros He. split; [done|]. exists [e]. split; [done|]. by constructor. Qed.

Lemma preserves_mret {A} (a : A) : preserves quiet (mret a : St A).
Proof. intros w. apply quiet_refl. Qed.

Lemma preserves_bind {A B} (m : St A) (k : A → St B) :
  preserves quiet m → (∀ a, preserves quiet (k a)) →
  preserves quiet (m ≫= k).
Proof.
  intros Hm Hk w. unfold mbind, St_bind.
  specialize (Hm w). destruct (m w) as [a w1]. simpl in Hm.
  eapply quiet_trans; [exact Hm | apply Hk].
Qed.

Lemma preserves_gets {A} (f : World → A) : preserves quiet (gets f).
Proof. intros w. apply quiet_refl. Qed.

Lemma preserves_modify (f : World → World) :
  (∀ w, request_retry_count (f w) = request_retry_count w
        ∧ trace (f w) = trace w) →
  preserves quiet (modify f).
Proof.
  intros Hf w. destruct (Hf w) as [Hc Ht]. split; [done|].
  exists []. simpl. by rewrite Ht, app_nil_r.
Qed.

Lemma preserves_log e : aside e → preserves quiet (log e).
Proof. intros He w. by apply quiet_log. Qed.

Lemma preserves_when b m :
  preserves quiet m → preserves quiet (when b m).
Proof. destruct b; [done|]. intros _. apply preserves_mret. Qed.

Lemma preserves_getConnector cid : preserves quiet (getConnector cid).
Proof. apply preserves_gets. Qed.

Lemma preserves_deref p c : preserves quiet (deref p c).
Proof. apply preserves_gets. Qed.

Lemma preserves_mutate p f : preserves quiet (mutate p f).
Proof. by apply preserves_modify. Qed.

Lemma preserves_saveConnector cid : preserves quiet (saveConnector cid).
Proof.
  intros w. unfold saveConnector.
  destruct (Connectors.getConnector _ _) as [[? c]|]; simpl.
  - split; [done|]. exists [EvSaveConnector c]. by repeat constructor.
  - apply quiet_refl.
Qed.

Lemma preserves_fifo_push e : preserves quiet (fifo_push e).
Proof.
  apply preserves_bind; [by apply preserves_modify|].
  intros _. by apply preserves_log.
Qed.

Lemma preserves_now env : preserves quiet (DateTime_now env).
Proof.
  intros w. split; [done|]. exists []. simpl. by rewrite app_nil_r.
Qed.

Lemma preserves_msg_sender_call env act pl :
  preserves quiet (msg_sender_call env act pl true).
Proof.
  unfold msg_sender_call.
  apply preserves_bind; [apply preserves_gets|]. intros w0.
  apply preserves_bind; [by apply preserves_log|]. intros _.
  apply preserves_bind; [by apply preserves_modify|]. intros _.
  apply preserves_bind; [|intros _; apply preserves_mret].
  apply preserves_when, preserves_fifo_push.
Qed.

Lemma preserves_clearReservation env cid :
  preserves quiet (reservation_clearReservation env cid).
Proof.
  unfold reservation_clearReservation.
  apply preserves_bind; [by apply preserves_log|]. intros _.
  apply preserves_bind; [apply preserves_getConnector|]. intros [[p c]|].
  - apply preserves_mutate.
  - apply preserves_mret.
Qed.

Create HintDb quiet.

#[local] Hint Resolve preserves_gets preserves_getConnector preserves_deref
  preserves_mutate preserves_saveConnector preserves_fifo_push preserves_now
  preserves_msg_sender_call preserves_clearReservation : quiet.

(** One step through a member function: a bind, a return, a branch, or a
    call known to be quiet. *)
Ltac quiet_step :=
  match goal with
  | |- preserves quiet (mret _) => apply preserves_mret
  | |- preserves quiet (_ ≫= _) => apply preserves_bind; [|intros ?]
  | |- preserves quiet (log _) => apply preserves_log; by split
  | |- preserves quiet (when _ _) => apply preserves_when
  | |- preserves quiet (if decide ?P then _ else _) => destruct (decide P)
  | |- preserves quiet (if ?b then _ else _) => destruct b
  | |- preserves quiet (match ?x with _ => _ end) => destruct x
  | |- preserves quiet (let '(_, _) := ?x in _) => destruct x
  | |- preserves quiet _ => solve [auto with quiet]
  end.

Lemma preserves_check_reservations env cid tag c req :
  preserves quiet (check_reservations env cid tag c req).
Proof.
  unfold check_reservations, reservation_isTransactionAllowed.
  repeat quiet_step.
Qed.

Lemma preserves_startTransaction env cid tag :
  preserves quiet (startTransaction env cid tag).
Proof.
  unfold startTransaction, reservation_isTransactionAllowed,
    events_getTxStartStopMeterValue.
  pose proof (preserves_check_reservations env). repeat quiet_step.
Qed.

Lemma preserves_stopTransaction env cid tag reason :
  preserves quiet (stopTransaction env cid tag reason).
Proof.
  unfold stopTransaction, events_getTxStartStopMeterValue.
  repeat quiet_step.
Qed.

Lemma preserves_remote_start env request :
  preserves quiet (handleMessage_RemoteStartTransactionReq env request).
Proof.
  unfold handleMessage_RemoteStartTransactionReq,
    reservation_isTransactionAllowed.
  repeat quiet_step.
Qed.

Lemma preserves_remote_stop env request :
  preserves quiet (handleMessage_RemoteStopTransactionReq env request).
Proof.
  unfold handleMessage_RemoteStopTransactionReq. repeat quiet_step.
Qed.

Lemma apply_op_inv env op w :
  drainer_inv env w → drainer_inv env (apply_op env op w).2.
Proof.
  intros Hinv.
  assert (Hq : ∀ A (m : St A),
             preserves quiet m → drainer_inv env ((m ;; mret tt) w).2).
  { intros A m Hm. eapply quiet_inv; [|exact Hinv].
    apply (preserves_bind m (λ _, mret tt)); [done|].
    intros _. apply preserves_mret. }
  destruct op; simpl.
  - apply Hq, preserves_startTransaction.
  - apply Hq, preserves_stopTransaction.
  - apply Hq, preserves_remote_start.
  - apply Hq, preserves_remote_stop.
  - by apply processFifoRequest_inv.
  - done.
  - unfold updateConnectionStatus, mbind, St_bind, fifo_size, gets.
    simpl. destruct is_connected; [|done]. destruct (decide _); [|done].
    by apply processFifoRequest_inv.
  - done.
  - unfold retry_timer_callback, timer_isStarted, mbind, St_bind, modify, gets.
    simpl. destruct (bool_decide _); [|done].
    by apply processFifoRequest_inv.
  - eapply quiet_inv; [apply preserves_fifo_push | exact Hinv].
Qed.

Lemma run_inv env ops w : drainer_inv env w → drainer_inv env (run env ops w).
Proof.
  revert w. induction ops as [|op ops IH]; intros w Hinv; simpl; [done|].
  by apply IH, apply_op_inv.
Qed.

Lemma scan_from_ok bound evs s :
  (fold_left (scan_step bound) evs s).2 = true → s.2 = true.
Proof.
  revert s. induction evs as [|e evs IH]; intros s; simpl; [done|].
  intros H. apply IH in H. unfold scan_step in H.
  destruct (is_pop e); [done|]. destruct (is_drainer_send e); [|done].
  simpl in H. by apply andb_prop in H as [? _].
Qed.

Lemma scan_segment bound seg s :
  count_events is_pop seg = 0 →
  (fold_left (scan_step bound) seg s).2 = true →
  count_events is_drainer_send seg = 0
  ∨ s.1 + count_events is_drainer_send seg ≤ bound.
Proof.
  revert s. induction seg as [|e seg IH]; intros s; simpl; [by left|].
  intros Hpop Hok.
  destruct (is_pop e) eqn:Hp; [done|]. simpl in Hpop.
  unfold scan_step in Hok. rewrite Hp in Hok.
  destruct (is_drainer_send e) eqn:Hd.
  - right. pose proof (scan_from_ok _ _ _ Hok) as Hs. simpl in Hs.
    apply andb_prop in Hs as [_ Hs%bool_decide_eq_true_1].
    destruct (IH _ Hpop Hok) as [->|Hle]; simpl in *; lia.
  - destruct (IH _ Hpop Hok) as [->|Hle]; [by left | right; simpl; lia].
Qed.

Lemma scan_segments bound tr :
  (scan bound tr).2 = true →
  ∀ before segment after,
    tr = before ++ segment ++ after →
    count_events is_pop segment = 0 →
    count_events is_drainer_send segment ≤ bound.
Proof.
  intros Hok before segment after -> Hpop.
  rewrite scan_app, fold_left_app in Hok. apply scan_from_ok in Hok.
  destruct (scan_segment _ _ _ Hpop Hok); lia.
Qed.

(** C4. In the log of a transaction manager, from its construction on
    and whatever happens to it, a stretch without a pop of the FIFO holds
    at most TransactionMessageAttempts + 1 sends of the drainer: that is
    the most the drainer sends a request that stays at the head of the
    FIFO. The retry counter works as follows. After a successful send
    the head is popped and the counter is 0. After a failed send the
    counter is incremented; if it is then beyond
    TransactionMessageAttempts the head is popped and the counter is 0,
    otherwise the head stays and the counter keeps the new value. *)
Theorem retry_bound env cs db fifo up registration ops :
  let w := run env ops (TransactionManager_new cs db fifo up registration) in
  (∀ before segment after,
     trace w = before ++ segment ++ after →
     count_events is_pop segment = 0 →
     count_events is_drainer_send segment
     ≤ N.to_nat (transactionMessageAttempts env) + 1)
  ∧ (∀ w0, let w1 := (handle_result env CallResult.Ok w0).2 in
       requests_fifo w1 = tail (requests_fifo w0)
       ∧ request_retry_count w1 = 0%N)
  ∧ (∀ w0, let w1 := (handle_result env CallResult.Failed w0).2 in
       let count := (request_retry_count w0 + 1)%N in
       ((transactionMessageAttempts env < count)%N →
        requests_fifo w1 = tail (requests_fifo w0)
        ∧ request_retry_count w1 = 0%N)
       ∧ ((count ≤ transactionMessageAttempts env)%N →
          requests_fifo w1 = requests_fifo w0
          ∧ request_retry_count w1 = count)).
Proof.
  intros w. split_and!.
  - destruct (run_inv env ops _ (new_inv env cs db fifo up registration))
      as (s & Hs & _).
    intros before segment after Htr Hpop.
    replace (_ + 1) with (attempts_bound env) by (unfold attempts_bound; lia).
    eapply scan_segments; [|exact Htr|exact Hpop].
    fold w in Hs. by rewrite Hs.
  - intros w0. by rewrite handle_result_ok.
  - intros w0 w1 count. subst w1.
    destruct (handle_result_fields env CallResult.Failed w0)
      as (_ & _ & _ & _ & _ & [[[|Hlt] ->]|(_ & Hle & Hf & Hc & _)]);
      [done| |]; fold count in Hlt || fold count in Hle; split; intros ?;
      try (exfalso; lia); done.
Qed.

(** ** The scenarios of the specification *)

(** S1, happy path: the start is accepted with transaction id 42, the
    stop sends a StopTransaction request for 42 and resets the
    connector. *)
Example scenario_happy_path :
  let env := station (answering AuthorizationStatus.Accepted 42%Z)
               always_allowed true true in
  let w := world_with idle_connectors [] true RegistrationStatus.Accepted in
  let started := startTransaction env 1 "TAG01" w in
  let stopped := stopTransaction env 1 "TAG01" Reason.Local started.2 in
  started.1 = AuthorizationStatus.Accepted
  ∧ Connector.transaction_id <$> connectors started.2 !! 1 = Some 42%Z
  ∧ EvStartSampledMeterValues 1 ∈ trace started.2
  ∧ stopped.1 = true
  ∧ Connector.transaction_id <$> connectors stopped.2 !! 1 = Some 0%Z
  ∧ (∃ req, last (filter (λ e, is_send e = true) (trace stopped.2))
            = Some (EvCall STOP_TRANSACTION_ACTION (PStopTransaction req)
                      true true RegistrationStatus.Accepted)
            ∧ StopTransactionReq.transactionId req = 42%Z
            ∧ StopTransactionReq.reason req = Reason.Local).
Proof.
  intros env w started stopped. split_and!; try (by vm_compute).
  - vm_compute. repeat constructor.
  - eexists. split; [by vm_compute|]. done.
Qed.

(** S2, offline start then reconnect: the start is queued, the connector
    holds -1; when the link is back the drainer sends the request and
    pops it, the retry counter staying at 0. *)
Example scenario_offline_start :
  let script n := if decide (n = 0) then offline n
                  else answering AuthorizationStatus.Accepted 42%Z n in
  let env := station script always_allowed true true in
  let w := world_with idle_connectors [] false RegistrationStatus.Accepted in
  let started := startTransaction env 2 "TAG02" w in
  let drained :=
    run env [OpLinkChanged true; OpUpdateConnectionStatus true] started.2 in
  started.1 = AuthorizationStatus.Accepted
  ∧ length (requests_fifo started.2) = 1
  ∧ Connector.transaction_id <$> connectors started.2 !! 2 = Some (-1)%Z
  ∧ requests_fifo drained = []
  ∧ request_retry_count drained = 0%N
  ∧ count_events is_drainer_send (trace drained) = 1.
Proof. by vm_compute. Qed.

(** S3, retry exhaustion, with TransactionMessageAttempts = 3: the
    request is dropped at its fourth failed send, and the next request is
    then tried. *)
Example scenario_retry_exhaustion :
  let script n := if decide (n < 4) then failing n
                  else answering AuthorizationStatus.Accepted 0%Z n in
  let env := station script always_allowed true true in
  let first := {| action := METER_VALUES_ACTION; payload := PMeterValues "1" |} in
  let second := {| action := METER_VALUES_ACTION; payload := PMeterValues "2" |} in
  let w := world_with idle_connectors [first; second] true
             RegistrationStatus.Accepted in
  let third := run env [OpProcessFifoRequest; OpRetryTimerFired;
                        OpRetryTimerFired] w in
  let fourth := run env [OpRetryTimerFired] third in
  requests_fifo third = [first; second]
  ∧ request_retry_count third = 3%N
  ∧ count_events is_drainer_send (trace third) = 3
  ∧ requests_fifo fourth = []
  ∧ request_retry_count fourth = 0%N
  ∧ filter (λ e, is_send e = true ∨ is_pop e = true) (trace fourth)
    = [EvCall METER_VALUES_ACTION (PMeterValues "1") false true
         RegistrationStatus.Accepted;
       EvCall METER_VALUES_ACTION (PMeterValues "1") false true
         RegistrationStatus.Accepted;
       EvCall METER_VALUES_ACTION (PMeterValues "1") false true
         RegistrationStatus.Accepted;
       EvCall METER_VALUES_ACTION (PMeterValues "1") false true
         RegistrationStatus.Accepted;
       EvFifoPop;
       EvCall METER_VALUES_ACTION (PMeterValues "2") false true
         RegistrationStatus.Accepted;
       EvFifoPop].
Proof. by vm_compute. Qed.

(** S4, reservation consumption: connector 1 is reserved with
    reservation id 7; the start request carries it and the reservation
    is cleared. *)
Example scenario_reservation :
  let env := station (answering AuthorizationStatus.Accepted 5%Z)
               always_allowed true true in
  let reserved :=
    {| Connector.id := 1; Connector.status := ChargePointStatus.Reserved;
       Connector.transaction_id := 0%Z; Connector.transaction_start := 0%Z;
       Connector.transaction_id_tag := ""; Connector.reservation_id := 7%Z |} in
  let w := world_with [connector_with 0 0%Z ""; reserved] [] true
             RegistrationStatus.Accepted in
  let started := startTransaction env 1 "TAG03" w in
  started.1 = AuthorizationStatus.Accepted
  ∧ EvClearReservation 1 ∈ trace started.2
  ∧ ∃ req, EvCall START_TRANSACTION_ACTION (PStartTransaction req) true true
             RegistrationStatus.Accepted ∈ trace started.2
           ∧ StartTransactionReq.reservationId req = Some 7%Z.
Proof.
  intros env reserved w started. split_and!; try (by vm_compute).
  - vm_compute. repeat constructor.
  - eexists. split; [vm_compute; repeat constructor|]. done.
Qed.

(** * Further properties of the member functions *)

(** ** startTransaction, from the reservation check to the response *)

Lemma check_reservations_exact env cid tag p c req w :
  Connectors.getConnector (connectors w) cid = Some (p, c) →
  check_reservations env cid tag c req w
  = match reservation_for env (connectors w) tag c with
    | Some r =>
        (StartTransactionReq.set_reservationId r req,
         set_connectors
           (alter (λ c, Connector.set_reservation (reservationCleared env c) c)
              p (connectors w))
           (set_trace (trace w ++ [EvClearReservation cid]) w))
    | None => (req, w)
    end.
Proof.
  intros Hg.
  assert (Hclear : ∀ r,
    (reservation_clearReservation env cid ;;
     mret (StartTransactionReq.set_reservationId r req)) w
    = (StartTransactionReq.set_reservationId r req,
       set_connectors
         (alter (λ c, Connector.set_reservation (reservationCleared env c) c)
            p (connectors w))
         (set_trace (trace w ++ [EvClearReservation cid]) w))).
  { intros r. unfold reservation_clearReservation, getConnector, mutate,
      log, modify. exec. rewrite Hg. done. }
  unfold check_reservations, reservation_for.
  destruct (decide (Connector.status c = _)); [apply Hclear|].
  destruct (reserveConnectorZeroSupported env); [|done].
  unfold reservation_isTransactionAllowed,
    Connectors.CONNECTOR_ID_CHARGE_POINT. exec.
  destruct (Connectors.getConnector (connectors w) 0) as [[q cp]|]; [|done].
  exec.
  destruct (decide (Connector.status cp = _)); [|done]. exec.
  destruct (decide (isTransactionAllowed env _ _ _ = _)); [apply Hclear|done].
Qed.

(** X1. When the reservation manager does not allow the transaction,
    [startTransaction] returns the status it gave and nothing happened:
    no call, no reservation cleared, state as before. *)
Theorem start_reservation_refused env w connector_id id_tag p connector :
  connector_id ≠ 0 →
  Connectors.getConnector (connectors w) connector_id = Some (p, connector) →
  isTransactionAllowed env (connectors w) connector_id id_tag
  ≠ AuthorizationStatus.Accepted →
  startTransaction env connector_id id_tag w
  = (isTransactionAllowed env (connectors w) connector_id id_tag, w).
Proof.
  intros H0 Hg Hno. unfold startTransaction.
  rewrite decide_True by done.
  unfold getConnector, reservation_isTransactionAllowed. exec.
  rewrite Hg. exec. by rewrite decide_False.
Qed.

(** Connector 1 is reserved for another id tag. *)
Lemma start_reservation_refused_witness :
  let allowed cid (tag : string) :=
    if decide (tag = "OWNER") then AuthorizationStatus.Accepted
    else AuthorizationStatus.Invalid in
  let env := station (answering AuthorizationStatus.Accepted 42%Z)
               allowed true true in
  let w := world_with idle_connectors [] true RegistrationStatus.Accepted in
  startTransaction env 1 "TAG01" w
  = (isTransactionAllowed env (connectors w) 1 "TAG01", w).
Proof.
  intros allowed env w.
  apply (start_reservation_refused env w 1 "TAG01" 1 (connector_with 1 0%Z ""));
    [lia | reflexivity | discriminate].
Defined.

Lemma startTransaction_run env w cid tag p c :
  cid ≠ 0 →
  Connectors.getConnector (connectors w) cid = Some (p, c) →
  isTransactionAllowed env (connectors w) cid tag
  = AuthorizationStatus.Accepted →
  let o := net env (calls w) in
  let info := StartTransactionConf.idTagInfo (start_conf o) in
  let tid := StartTransactionConf.transactionId (start_conf o) in
  let rid := reservation_for env (connectors w) tag c in
  let req :=
    {| StartTransactionReq.connectorId := cid;
       StartTransactionReq.idTag := IdToken_assign env tag;
       StartTransactionReq.meterStart :=
         getTxStartStopMeterValue env (ticks w) cid;
       StartTransactionReq.reservationId := rid;
       StartTransactionReq.timestamp := now env (ticks w) |} in
  let before :=
    match rid with Some _ => [EvClearReservation cid] | None => [] end in
  let c1 :=
    match rid with
    | Some _ => Connector.set_reservation (reservationCleared env c) c
    | None => c
    end in
  let sent :=
    EvCall START_TRANSACTION_ACTION (PStartTransaction req) true
      (connected w) (registration_status w) in
  let entry :=
    {| action := START_TRANSACTION_ACTION; payload := PStartTransaction req |} in
  let started t := Connector.set_transaction t (now env (S (ticks w))) tag c1 in
  ∃ ret w',
    startTransaction env cid tag w = (ret, w')
    ∧ (result o ≠ CallResult.Ok →
       ret = AuthorizationStatus.Accepted
       ∧ trace w'
         = trace w ++ before
           ++ [sent; EvFifoPush entry; EvSaveConnector (started (-1)%Z);
               EvAssignPendingTxProfiles cid (-1)%Z;
               EvStartSampledMeterValues cid]
       ∧ Connectors.getConnector (connectors w') cid
         = Some (p, started (-1)%Z)
       ∧ database w' = <[cid := started (-1)%Z]> (database w)
       ∧ requests_fifo w' = requests_fifo w ++ [entry]
       ∧ calls w' = S (calls w))
    ∧ (result o = CallResult.Ok →
       IdTagInfo.status info = AuthorizationStatus.Accepted →
       ret = AuthorizationStatus.Accepted
       ∧ trace w'
         = trace w ++ before
           ++ [sent; EvAuthentUpdate tag info; EvSaveConnector (started tid);
               EvAssignPendingTxProfiles cid tid;
               EvStartSampledMeterValues cid]
       ∧ Connectors.getConnector (connectors w') cid = Some (p, started tid)
       ∧ database w' = <[cid := started tid]> (database w)
       ∧ requests_fifo w' = requests_fifo w
       ∧ calls w' = S (calls w))
    ∧ (result o = CallResult.Ok →
       IdTagInfo.status info ≠ AuthorizationStatus.Accepted →
       ret = IdTagInfo.status info
       ∧ ∃ after, trace w' = trace w ++ before ++ [sent] ++ after).
Proof.
  intros H0 Hg Ha o info tid rid req before c1 sent entry started.
  unfold startTransaction.
  rewrite decide_True by done.
  unfold getConnector. exec. rewrite Hg. exec.
  unfold reservation_isTransactionAllowed. exec. rewrite Ha.
  rewrite decide_True by done. exec.
  rewrite (check_reservations_exact env cid tag p c) by exact Hg.
  simpl connectors. fold rid.
  set (cs1 := match rid with
              | Some _ =>
                  alter (λ c, Connector.set_reservation
                                (reservationCleared env c) c) p (connectors w)
              | None => connectors w
              end).
  assert (Hg1 : Connectors.getConnector cs1 cid = Some (p, c1)).
  { subst cs1 c1. destruct rid; [|done].
    by apply (getConnector_alter _ _ _ _
                (λ c, Connector.set_reservation (reservationCleared env c) c)). }
  assert (Hsave : ∀ t, Connectors.getConnector
                         (alter (Connector.set_transaction t
                                   (now env (S (ticks w))) tag) p cs1) cid
                       = Some (p, started t)).
  { intros t. by apply getConnector_alter. }
  assert (Hl : ∀ t, alter (Connector.set_transaction t
                             (now env (S (ticks w))) tag) p cs1 !! p
                    = Some (started t)).
  { intros t. by destruct (getConnector_lookup _ _ _ _ (Hsave t)). }
  assert (Hid : ∀ t, Connector.id (started t) = cid).
  { intros t. by destruct (getConnector_lookup _ _ _ _ (Hsave t)). }
  match goal with
  | |- context [match rid with Some r => @?X r | None => ?Y end] =>
      assert (Hpair : match rid with Some r => X r | None => Y end
                      = (req, set_connectors cs1
                                (set_trace (trace w ++ before)
                                   (set_ticks (S (ticks w)) w))))
  end.
  { subst req cs1 before. destruct rid; [done|].
    destruct w. unfold set_connectors, set_trace, set_ticks. simpl.
    by rewrite app_nil_r. }
  rewrite Hpair. clear Hpair.
  unfold msg_sender_call, log, modify. exec. fold o sent entry.
  destruct (decide (result o = CallResult.Ok)) as [Hok|Hko].
  - rewrite (bool_decide_eq_true_2 _ Hok). exec. fold o info tid.
    rewrite (decide_True (P := result o = CallResult.Ok)) by done.
    destruct (decide (IdTagInfo.status info = AuthorizationStatus.Accepted))
      as [Hacc|Hrej].
    + rewrite Hacc, bool_decide_eq_true_2 by done. exec.
      rewrite (decide_True (P := AuthorizationStatus.Accepted = _)) by done.
      unfold mutate, deref, modify, gets. exec.
      rewrite !Hl. simpl default. rewrite Hid.
      erewrite saveConnector_run by apply Hsave. exec. rewrite Hl. exec.
      eexists _, _. split; [reflexivity|]. exec.
      split_and!; [done | | done].
      intros _ _. split_and!; try done. by rewrite <- !app_assoc.
    + unfold when, fifo_push, log, modify.
      destruct (bool_decide (IdTagInfo.status info ≠ _)); exec;
        rewrite (decide_False (P := IdTagInfo.status info = _)) by done; exec;
        destruct (bool_decide (result (net env (S (calls w))) = _)); exec;
        eexists _, _; (split; [reflexivity|]); exec;
        (split_and!; [done | done |]); intros _ _; (split; [done|]);
        eexists; rewrite <- !app_assoc; reflexivity.
  - rewrite (bool_decide_eq_false_2 _ Hko).
    unfold when, fifo_push, log, modify. exec. fold o.
    rewrite (decide_False (P := result o = CallResult.Ok)) by done. exec.
    rewrite (decide_True (P := AuthorizationStatus.Accepted = _)) by done.
    unfold fifo_push, log, mutate, deref, modify, gets. exec.
    rewrite !Hl. simpl default. rewrite Hid.
    erewrite saveConnector_run by apply Hsave. exec. rewrite Hl. exec.
    eexists _, _. split; [reflexivity|]. exec.
    split_and!; [ | done | done].
    intros _. split_and!; try done. by rewrite <- !app_assoc.
Qed.



(** X2. When the send succeeds and the response says [Accepted],
    [startTransaction] returns [Accepted]; the connector holds the
    transaction id of the response, the id tag and the time read after
    the response; its record is saved; nothing is queued; and the one
    call made is followed by the update of the authorization cache, the
    save, the assignment of the pending profiles to that transaction id
    and the start of the sampled meter values, in this order. *)
Theorem start_accepted env w connector_id id_tag p connector :
  connector_id ≠ 0 →
  Connectors.getConnector (connectors w) connector_id = Some (p, connector) →
  isTransactionAllowed env (connectors w) connector_id id_tag
  = AuthorizationStatus.Accepted →
  result (net env (calls w)) = CallResult.Ok →
  IdTagInfo.status (StartTransactionConf.idTagInfo (start_conf (net env (calls w))))
  = AuthorizationStatus.Accepted →
  let r := startTransaction env connector_id id_tag w in
  let info := StartTransactionConf.idTagInfo (start_conf (net env (calls w))) in
  let tid := StartTransactionConf.transactionId (start_conf (net env (calls w))) in
  r.1 = AuthorizationStatus.Accepted
  ∧ requests_fifo r.2 = requests_fifo w
  ∧ calls r.2 = S (calls w)
  ∧ ∃ c' req before,
      Connectors.getConnector (connectors r.2) connector_id = Some (p, c')
      ∧ Connector.transaction_id c' = tid
      ∧ Connector.transaction_id_tag c' = id_tag
      ∧ Connector.transaction_start c' = now env (S (ticks w))
      ∧ database r.2 !! connector_id = Some c'
      ∧ count_events is_send before = 0
      ∧ trace r.2
        = trace w ++ before
          ++ [EvCall START_TRANSACTION_ACTION (PStartTransaction req) true
                (connected w) (registration_status w);
              EvAuthentUpdate id_tag info;
              EvSaveConnector c';
              EvAssignPendingTxProfiles connector_id tid;
              EvStartSampledMeterValues connector_id].
Proof.
  intros H0 Hg Ha Hok Hacc r info tid. subst r.
  destruct (startTransaction_run env w connector_id id_tag p connector H0 Hg Ha)
    as (ret & w' & -> & _ & Hrun & _).
  destruct (Hrun Hok Hacc) as (-> & Htr & Hg' & Hdb & Hf & Hc).
  simpl. split_and!; [done..|].
  eexists _, _, _. split_and!; [exact Hg' | done | done | done | | | exact Htr].
  - rewrite Hdb. apply lookup_insert_eq.
  - by destruct (reservation_for _ _ _ _).
Qed.

(** Scenario S1 of the specification, its first half. *)
Lemma start_accepted_witness :
  let env := station (answering AuthorizationStatus.Accepted 42%Z)
               always_allowed true true in
  let w := world_with idle_connectors [] true RegistrationStatus.Accepted in
  let r := startTransaction env 1 "TAG01" w in
  let info := StartTransactionConf.idTagInfo (start_conf (net env (calls w))) in
  r.1 = AuthorizationStatus.Accepted
  ∧ requests_fifo r.2 = requests_fifo w
  ∧ calls r.2 = S (calls w)
  ∧ ∃ c' req before,
      Connectors.getConnector (connectors r.2) 1 = Some (1, c')
      ∧ Connector.transaction_id c' = 42%Z
      ∧ Connector.transaction_id_tag c' = "TAG01"
      ∧ Connector.transaction_start c' = now env (S (ticks w))
      ∧ database r.2 !! 1 = Some c'
      ∧ count_events is_send before = 0
      ∧ trace r.2
        = trace w ++ before
          ++ [EvCall START_TRANSACTION_ACTION (PStartTransaction req) true
                (connected w) (registration_status w);
              EvAuthentUpdate "TAG01" info;
              EvSaveConnector c';
              EvAssignPendingTxProfiles 1 42%Z;
              EvStartSampledMeterValues 1].
Proof.
  intros env w.
  apply (start_accepted env w 1 "TAG01" 1 (connector_with 1 0%Z ""));
    [lia | reflexivity | reflexivity | reflexivity | reflexivity].
Defined.

(** X3. Whenever [startTransaction] gets as far as the reservation
    manager allowing the transaction, its first call is the
    StartTransaction request for the connector, with the id tag, the
    meter value and the time read before the call. [clearReservation] is
    called before it exactly when the request carries a reservation id,
    and always for the connector of the transaction: the id is that of
    the connector when it is [Reserved], and otherwise that of connector
    0, which needs ReserveConnectorZeroSupported, connector 0 [Reserved]
    and the id tag allowed on connector 0. *)
Theorem start_reservation_stamp env w connector_id id_tag p connector :
  connector_id ≠ 0 →
  Connectors.getConnector (connectors w) connector_id = Some (p, connector) →
  isTransactionAllowed env (connectors w) connector_id id_tag
  = AuthorizationStatus.Accepted →
  let w' := (startTransaction env connector_id id_tag w).2 in
  ∃ req before after,
    trace w'
    = trace w ++ before
      ++ [EvCall START_TRANSACTION_ACTION (PStartTransaction req) true
            (connected w) (registration_status w)]
      ++ after
    ∧ StartTransactionReq.connectorId req = connector_id
    ∧ StartTransactionReq.idTag req = IdToken_assign env id_tag
    ∧ StartTransactionReq.meterStart req
      = getTxStartStopMeterValue env (ticks w) connector_id
    ∧ StartTransactionReq.timestamp req = now env (ticks w)
    ∧ (before = [EvClearReservation connector_id]
       ∧ is_Some (StartTransactionReq.reservationId req)
       ∨ before = [] ∧ StartTransactionReq.reservationId req = None)
    ∧ (Connector.status connector = ChargePointStatus.Reserved →
       StartTransactionReq.reservationId req
       = Some (Connector.reservation_id connector))
    ∧ (Connector.status connector ≠ ChargePointStatus.Reserved →
       ∀ r, StartTransactionReq.reservationId req = Some r →
         reserveConnectorZeroSupported env = true
         ∧ isTransactionAllowed env (connectors w) 0 id_tag
           = AuthorizationStatus.Accepted
         ∧ ∃ q charge_point,
             Connectors.getConnector (connectors w) 0 = Some (q, charge_point)
             ∧ Connector.status charge_point = ChargePointStatus.Reserved
             ∧ r = Connector.reservation_id charge_point).
Proof.
  intros H0 Hg Ha w'. subst w'.
  destruct (startTransaction_run env w connector_id id_tag p connector H0 Hg Ha)
    as (ret & w' & -> & Hko & Hacc & Hrej).
  simpl.
  assert (Htr : ∃ after,
    trace w'
    = trace w
      ++ match reservation_for env (connectors w) id_tag connector with
         | Some _ => [EvClearReservation connector_id]
         | None => []
         end
      ++ [EvCall START_TRANSACTION_ACTION
            (PStartTransaction
               {| StartTransactionReq.connectorId := connector_id;
                  StartTransactionReq.idTag := IdToken_assign env id_tag;
                  StartTransactionReq.meterStart :=
                    getTxStartStopMeterValue env (ticks w) connector_id;
                  StartTransactionReq.reservationId :=
                    reservation_for env (connectors w) id_tag connector;
                  StartTransactionReq.timestamp := now env (ticks w) |})
            true (connected w) (registration_status w)]
      ++ after).
  { destruct (decide (result (net env (calls w)) = CallResult.Ok)) as [Hok|Hno].
    - destruct (decide (IdTagInfo.status
                          (StartTransactionConf.idTagInfo
                             (start_conf (net env (calls w))))
                        = AuthorizationStatus.Accepted)) as [Hs|Hs].
      + destruct (Hacc Hok Hs) as (_ & -> & _). eexists. reflexivity.
      + destruct (Hrej Hok Hs) as (_ & after & ->). by exists after.
    - destruct (Hko Hno) as (_ & -> & _). eexists. reflexivity. }
  destruct Htr as (after & Htr).
  eexists _, _, after. split; [exact Htr|]. simpl.
  split_and!; try done.
  - destruct (reservation_for _ _ _ _); [left | right]; eauto.
  - intros Hres. unfold reservation_for. by rewrite decide_True.
  - intros Hres r. unfold reservation_for.
    rewrite decide_False by done.
    unfold Connectors.CONNECTOR_ID_CHARGE_POINT.
    destruct (reserveConnectorZeroSupported env); [|done].
    destruct (Connectors.getConnector (connectors w) 0) as [[q cp]|]; [|done].
    destruct (decide (Connector.status cp = _)); [|done].
    destruct (decide (isTransactionAllowed env _ _ _ = _)); [|done].
    intros [= <-]. eauto 10.
Qed.

(** Scenario S4 of the specification: connector 1 is reserved with
    reservation id 7. *)
Lemma start_reservation_stamp_witness :
  let env := station (answering AuthorizationStatus.Accepted 5%Z)
               always_allowed true true in
  let reserved :=
    {| Connector.id := 1; Connector.status := ChargePointStatus.Reserved;
       Connector.transaction_id := 0%Z; Connector.transaction_start := 0%Z;
       Connector.transaction_id_tag := ""; Connector.reservation_id := 7%Z |} in
  let w := world_with [connector_with 0 0%Z ""; reserved] [] true
             RegistrationStatus.Accepted in
  let w' := (startTransaction env 1 "TAG03" w).2 in
  ∃ req before after,
    trace w'
    = trace w ++ before
      ++ [EvCall START_TRANSACTION_ACTION (PStartTransaction req) true
            (connected w) (registration_status w)]
      ++ after
    ∧ StartTransactionReq.connectorId req = 1
    ∧ StartTransactionReq.idTag req = IdToken_assign env "TAG03"
    ∧ StartTransactionReq.meterStart req
      = getTxStartStopMeterValue env (ticks w) 1
    ∧ StartTransactionReq.timestamp req = now env (ticks w)
    ∧ (before = [EvClearReservation 1]
       ∧ is_Some (StartTransactionReq.reservationId req)
       ∨ before = [] ∧ StartTransactionReq.reservationId req = None)
    ∧ (Connector.status reserved = ChargePointStatus.Reserved →
       StartTransactionReq.reservationId req
       = Some (Connector.reservation_id reserved))
    ∧ (Connector.status reserved ≠ ChargePointStatus.Reserved →
       ∀ r, StartTransactionReq.reservationId req = Some r →
         reserveConnectorZeroSupported env = true
         ∧ isTransactionAllowed env (connectors w) 0 "TAG03"
           = AuthorizationStatus.Accepted
         ∧ ∃ q charge_point,
             Connectors.getConnector (connectors w) 0 = Some (q, charge_point)
             ∧ Connector.status charge_point = ChargePointStatus.Reserved
             ∧ r = Connector.reservation_id charge_point).
Proof.
  intros env reserved w.
  apply (start_reservation_stamp env w 1 "TAG03" 1 reserved);
    [lia | reflexivity | reflexivity].
Defined.

(** ** Start and stop, one after the other *)

Lemma stopTransaction_idle env w cid tag reason p c :
  Connectors.getConnector (connectors w) cid = Some (p, c) →
  Connector.transaction_id c = 0%Z →
  stopTransaction env cid tag reason w = (false, w).
Proof.
  intros Hg Htid. unfold stopTransaction, getConnector. exec.
  rewrite Hg. exec. rewrite decide_False by (by intros []). done.
Qed.

(** X4. A transaction is stopped once: after a [stopTransaction] that
    ended the transaction of a connector, another [stopTransaction] on
    this connector returns [false], makes no call and leaves the state as
    it is, whatever id tag and reason it is given. *)
Theorem stop_twice env w connector_id id_tag reason p connector :
  Connectors.getConnector (connectors w) connector_id = Some (p, connector) →
  Connector.transaction_id connector ≠ 0%Z →
  let w1 := (stopTransaction env connector_id id_tag reason w).2 in
  ∀ id_tag' reason',
    stopTransaction env connector_id id_tag' reason' w1 = (false, w1).
Proof.
  intros Hg Htid w1 id_tag' reason'. subst w1.
  destruct (stopTransaction_run env w connector_id id_tag reason p connector
              Hg Htid) as (w1 & -> & Hcs & _).
  simpl.
  eapply stopTransaction_idle;
    [rewrite Hcs; by apply getConnector_alter | reflexivity].
Qed.

Lemma stop_twice_witness :
  let env := station offline always_allowed true true in
  let cs := [connector_with 0 0%Z ""; connector_with 1 42%Z "TAG01"] in
  let w := world_with cs [] false RegistrationStatus.Accepted in
  let w1 := (stopTransaction env 1 "TAG01" Reason.Local w).2 in
  stopTransaction env 1 "TAG02" Reason.Remote w1 = (false, w1).
Proof.
  intros env cs w.
  apply (stop_twice env w 1 "TAG01" Reason.Local 1
           (connector_with 1 42%Z "TAG01"));
    [reflexivity | discriminate].
Defined.

(** X5. With every call failing, a [startTransaction] followed by a
    [stopTransaction] on the same connector leaves, at the back of the
    FIFO, the StartTransaction request and then the StopTransaction
    request, in this order; the stop request bears the provisional
    transaction id -1; and the connector holds no transaction. *)
Theorem start_stop_queued_in_order
    env w connector_id id_tag id_tag' reason p connector :
  connector_id ≠ 0 →
  Connectors.getConnector (connectors w) connector_id = Some (p, connector) →
  isTransactionAllowed env (connectors w) connector_id id_tag
  = AuthorizationStatus.Accepted →
  (∀ n, result (net env n) ≠ CallResult.Ok) →
  let w1 := (startTransaction env connector_id id_tag w).2 in
  let r2 := stopTransaction env connector_id id_tag' reason w1 in
  r2.1 = true
  ∧ ∃ req stop_req c2,
      requests_fifo r2.2
      = requests_fifo w
        ++ [{| action := START_TRANSACTION_ACTION;
               payload := PStartTransaction req |};
            {| action := STOP_TRANSACTION_ACTION;
               payload := PStopTransaction stop_req |}]
      ∧ StartTransactionReq.connectorId req = connector_id
      ∧ StopTransactionReq.transactionId stop_req = (-1)%Z
      ∧ StopTransactionReq.reason stop_req = reason
      ∧ Connectors.getConnector (connectors r2.2) connector_id = Some (p, c2)
      ∧ Connector.transaction_id c2 = 0%Z.
Proof.
  intros H0 Hg Ha Hnet w1 r2. subst r2 w1.
  destruct (startTransaction_run env w connector_id id_tag p connector H0 Hg Ha)
    as (ret & w1 & -> & Hko & _).
  destruct (Hko (Hnet _)) as (_ & _ & Hg1 & _ & Hf1 & _).
  simpl.
  destruct (stopTransaction_run env w1 connector_id id_tag' reason p _ Hg1
              ltac:(done)) as (w2 & -> & Hcs2 & _ & Hf2 & _).
  simpl. split; [done|].
  rewrite decide_False in Hf2 by apply Hnet.
  eexists _, _, _. split_and!.
  - rewrite Hf2, Hf1, <- app_assoc. reflexivity.
  - done.
  - done.
  - done.
  - rewrite Hcs2. by apply getConnector_alter.
  - done.
Qed.

(** Scenario S2 of the specification, the transaction being stopped
    before the link is back. *)
Lemma start_stop_queued_in_order_witness :
  let env := station offline always_allowed true true in
  let w := world_with idle_connectors [] false RegistrationStatus.Accepted in
  let w1 := (startTransaction env 2 "TAG02" w).2 in
  let r2 := stopTransaction env 2 "TAG02" Reason.EVDisconnected w1 in
  r2.1 = true
  ∧ ∃ req stop_req c2,
      requests_fifo r2.2
      = requests_fifo w
        ++ [{| action := START_TRANSACTION_ACTION;
               payload := PStartTransaction req |};
            {| action := STOP_TRANSACTION_ACTION;
               payload := PStopTransaction stop_req |}]
      ∧ StartTransactionReq.connectorId req = 2
      ∧ StopTransactionReq.transactionId stop_req = (-1)%Z
      ∧ StopTransactionReq.reason stop_req = Reason.EVDisconnected
      ∧ Connectors.getConnector (connectors r2.2) 2 = Some (2, c2)
      ∧ Connector.transaction_id c2 = 0%Z.
Proof.
  intros env w.
  apply (start_stop_queued_in_order env w 2 "TAG02" "TAG02"
           Reason.EVDisconnected 2 (connector_with 2 0%Z ""));
    [lia | reflexivity | reflexivity | discriminate].
Defined.

(** X6. After a [startTransaction] accepted by the central system with
    transaction id [tid], a [stopTransaction] on the connector sends a
    StopTransaction request bearing [tid] and resets the connector,
    unless [tid] is 0: a transaction accepted with id 0 leaves the
    connector as one without transaction, and [stopTransaction] then
    returns [false] and sends nothing. *)
Theorem start_accepted_then_stop
    env w connector_id id_tag id_tag' reason p connector :
  connector_id ≠ 0 →
  Connectors.getConnector (connectors w) connector_id = Some (p, connector) →
  isTransactionAllowed env (connectors w) connector_id id_tag
  = AuthorizationStatus.Accepted →
  result (net env (calls w)) = CallResult.Ok →
  IdTagInfo.status (StartTransactionConf.idTagInfo (start_conf (net env (calls w))))
  = AuthorizationStatus.Accepted →
  let tid := StartTransactionConf.transactionId (start_conf (net env (calls w))) in
  let w1 := (startTransaction env connector_id id_tag w).2 in
  let r2 := stopTransaction env connector_id id_tag' reason w1 in
  (tid = 0%Z → r2 = (false, w1))
  ∧ (tid ≠ 0%Z →
     r2.1 = true
     ∧ ∃ stop_req c2,
         EvCall STOP_TRANSACTION_ACTION (PStopTransaction stop_req) true
           (connected w1) (registration_status w1) ∈ trace r2.2
         ∧ StopTransactionReq.transactionId stop_req = tid
         ∧ Connectors.getConnector (connectors r2.2) connector_id
           = Some (p, c2)
         ∧ Connector.transaction_id c2 = 0%Z).
Proof.
  intros H0 Hg Ha Hok Hacc tid w1 r2. subst r2 w1.
  destruct (startTransaction_run env w connector_id id_tag p connector H0 Hg Ha)
    as (ret & w1 & -> & _ & Hrun & _).
  destruct (Hrun Hok Hacc) as (_ & _ & Hg1 & _).
  simpl. fold tid in Hg1. split.
  - intros Hz. eapply stopTransaction_idle; [exact Hg1|]. done.
  - intros Hnz.
    destruct (stopTransaction_run env w1 connector_id id_tag' reason p _ Hg1
                ltac:(done)) as (w2 & -> & Hcs2 & _ & _ & Htr2).
    simpl. split; [done|]. eexists _, _. split_and!.
    + rewrite Htr2. rewrite !elem_of_app, !elem_of_cons. auto 10.
    + done.
    + rewrite Hcs2. by apply getConnector_alter.
    + done.
Qed.

(** The central system accepts the transaction and gives it the id 0. *)
Lemma start_accepted_then_stop_witness :
  let env := station (answering AuthorizationStatus.Accepted 0%Z)
               always_allowed true true in
  let w := world_with idle_connectors [] true RegistrationStatus.Accepted in
  let w1 := (startTransaction env 1 "TAG01" w).2 in
  stopTransaction env 1 "TAG01" Reason.Local w1 = (false, w1).
Proof.
  intros env w.
  apply (proj1 (start_accepted_then_stop env w 1 "TAG01" "TAG01" Reason.Local
                  1 (connector_with 1 0%Z "")
                  ltac:(lia) eq_refl eq_refl eq_refl eq_refl)).
  reflexivity.
Defined.

(** X7. [stopTransaction] updates the authorization cache exactly when
    the send succeeds and the response bears an [idTagInfo], and it does
    so under the id tag it was called with, also when this one is
    empty. *)
Theorem stop_authent_update env w connector_id id_tag reason p connector :
  Connectors.getConnector (connectors w) connector_id = Some (p, connector) →
  Connector.transaction_id connector ≠ 0%Z →
  let o := net env (calls w) in
  let w' := (stopTransaction env connector_id id_tag reason w).2 in
  ∃ evs,
    trace w' = trace w ++ evs
    ∧ (∀ info,
         result o = CallResult.Ok →
         StopTransactionConf.idTagInfo (stop_conf o) = Some info →
         EvAuthentUpdate id_tag info ∈ evs
         ∧ count_events is_authent_update evs = 1)
    ∧ (result o ≠ CallResult.Ok
       ∨ StopTransactionConf.idTagInfo (stop_conf o) = None →
       count_events is_authent_update evs = 0).
Proof.
  intros Hg Htid o w'. subst w'.
  destruct (stopTransaction_run env w connector_id id_tag reason p connector
              Hg Htid) as (w1 & -> & _ & _ & _ & Htr).
  simpl. eexists. split; [exact Htr|]. fold o. split.
  - intros info Hok Hinfo.
    rewrite (decide_True (P := result o = CallResult.Ok)), Hinfo by done.
    split; [|done].
    rewrite !elem_of_app, !elem_of_cons. auto 10.
  - intros [Hko|Hnone].
    + by rewrite (decide_False (P := result o = CallResult.Ok)).
    + rewrite Hnone. by destruct (decide (result o = CallResult.Ok)).
Qed.

(** The transaction is stopped with an empty id tag and the central
    system answers with an [idTagInfo]. *)
Lemma stop_authent_update_witness :
  let script (n : nat) :=
    {| result := CallResult.Ok;
       start_conf :=
         {| StartTransactionConf.idTagInfo :=
              idTagInfo_of AuthorizationStatus.Accepted;
            StartTransactionConf.transactionId := 0%Z |};
       stop_conf :=
         {| StopTransactionConf.idTagInfo :=
              Some (idTagInfo_of AuthorizationStatus.Expired) |};
       connected_after := true |} in
  let env := station script always_allowed true true in
  let cs := [connector_with 0 0%Z ""; connector_with 1 42%Z "TAG01"] in
  let w := world_with cs [] true RegistrationStatus.Accepted in
  let o := net env (calls w) in
  let w' := (stopTransaction env 1 "" Reason.Local w).2 in
  ∃ evs,
    trace w' = trace w ++ evs
    ∧ (∀ info,
         result o = CallResult.Ok →
         StopTransactionConf.idTagInfo (stop_conf o) = Some info →
         EvAuthentUpdate "" info ∈ evs
         ∧ count_events is_authent_update evs = 1)
    ∧ (result o ≠ CallResult.Ok
       ∨ StopTransactionConf.idTagInfo (stop_conf o) = None →
       count_events is_authent_update evs = 0).
Proof.
  intros script env cs w.
  apply (stop_authent_update env w 1 "" Reason.Local 1
           (connector_with 1 42%Z "TAG01"));
    [reflexivity | discriminate].
Defined.

(** ** Remote stop *)

Lemma remote_stop_run env w request :
  handleMessage_RemoteStopTransactionReq env request w
  = match list_find
            (λ c, Connector.transaction_id c ≠ 0%Z
                  ∧ Connector.transaction_id c
                    = RemoteStopTransactionReq.transactionId request)
            (connectors w) with
    | Some (_, c) =>
        (to_RemoteStartStopStatus
           (remoteStopTransactionRequested env (Connector.id c)),
         set_trace
           (trace w ++ [EvRemoteStopTransactionRequested (Connector.id c)]) w)
    | None => (RemoteStartStopStatus.Rejected, w)
    end.
Proof.
  unfold handleMessage_RemoteStopTransactionReq, gets, log, modify. exec.
  by destruct (list_find _ _) as [[i c]|].
Qed.

(** X8. The response to a RemoteStopTransaction request is [Rejected],
    the events handler not being asked, when the transaction id of the
    request is 0 or no connector holds it. Otherwise the events handler
    is asked once, about the first connector, in the order of the
    connectors, that holds the transaction id, and the response is
    [Accepted] when the events handler agrees and [Rejected] when it does
    not. Nothing but the log changes: no call is made, the transaction is
    not stopped here. *)
Theorem remote_stop_first_match env w request :
  let tid := RemoteStopTransactionReq.transactionId request in
  let r := handleMessage_RemoteStopTransactionReq env request w in
  (tid = 0%Z ∨ Forall (λ c, Connector.transaction_id c ≠ tid) (connectors w) →
   r = (RemoteStartStopStatus.Rejected, w))
  ∧ (∀ i c,
       tid ≠ 0%Z →
       connectors w !! i = Some c →
       Connector.transaction_id c = tid →
       (∀ j c', j < i → connectors w !! j = Some c' →
                Connector.transaction_id c' ≠ tid) →
       r = (if remoteStopTransactionRequested env (Connector.id c)
            then RemoteStartStopStatus.Accepted
            else RemoteStartStopStatus.Rejected,
            set_trace
              (trace w ++ [EvRemoteStopTransactionRequested (Connector.id c)])
              w)).
Proof.
  intros tid r. subst r. rewrite remote_stop_run. fold tid. split.
  - intros Hno.
    destruct (list_find _ _) as [[i c]|] eqn:Hfind; [|done].
    apply list_find_Some in Hfind as (Hi & [Hnz Heq] & _).
    destruct Hno as [Hz|Hall]; [congruence|].
    rewrite Forall_lookup in Hall. by destruct (Hall i c Hi).
  - intros i c Hnz Hi Heq Hfirst.
    assert (Hfind : list_find
                      (λ c, Connector.transaction_id c ≠ 0%Z
                            ∧ Connector.transaction_id c = tid)
                      (connectors w) = Some (i, c)).
    { apply list_find_Some. split_and!; [done | congruence | done |].
      intros j c' Hj Hlt [_ Heq']. by eapply Hfirst. }
    by rewrite Hfind.
Qed.

(** Connectors 1 and 2 both hold the provisional transaction id -1; a
    remote stop of transaction -1 is put to the events handler for
    connector 1, which agrees: the response is [Accepted]. *)
Lemma remote_stop_first_match_witness :
  let env := station offline always_allowed true true in
  let cs := [connector_with 0 0%Z ""; connector_with 1 (-1)%Z "TAG01";
             connector_with 2 (-1)%Z "TAG02"] in
  let w := world_with cs [] false RegistrationStatus.Accepted in
  let request := {| RemoteStopTransactionReq.transactionId := (-1)%Z |} in
  handleMessage_RemoteStopTransactionReq env request w
  = (RemoteStartStopStatus.Accepted,
     set_trace (trace w ++ [EvRemoteStopTransactionRequested 1]) w).
Proof.
  intros env cs w request.
  apply (proj2 (remote_stop_first_match env w request) 1
           (connector_with 1 (-1)%Z "TAG01"));
    [discriminate | reflexivity | reflexivity |].
  intros j c' Hlt Hj. assert (j = 0) as -> by lia.
  injection Hj as <-. discriminate.
Defined.

(** ** What the member functions leave alone *)

Lemma preserves_ret_any {A} (R : World → World → Prop) `{!Reflexive R}
    (a : A) :
  preserves R (mret a : St A).
Proof. intros w. simpl. reflexivity. Qed.

Lemma preserves_bind_any {A B} (R : World → World → Prop) `{!Transitive R}
    (m : St A) (k : A → St B) :
  preserves R m → (∀ a, preserves R (k a)) → preserves R (m ≫= k).
Proof.
  intros Hm Hk w. unfold mbind, St_bind.
  specialize (Hm w). destruct (m w) as [a w1]. simpl in Hm.
  etrans; [exact Hm | apply Hk].
Qed.

Lemma preserves_gets_any {A} (R : World → World → Prop) `{!Reflexive R}
    (f : World → A) :
  preserves R (gets f).
Proof. intros w. simpl. reflexivity. Qed.

Lemma preserves_when_any (R : World → World → Prop) `{!Reflexive R} b m :
  preserves R m → preserves R (when b m).
Proof. destruct b; [done|]. intros _. apply preserves_ret_any; apply _. Qed.

#[local] Instance only_logs_refl : Reflexive only_logs.
Proof.
  intros w. exists []. split; [|done].
  destruct w. unfold set_trace. simpl. by rewrite app_nil_r.
Qed.

#[local] Instance only_logs_trans : Transitive only_logs.
Proof.
  intros w1 w2 w3 (evs1 & -> & H1) (evs2 & -> & H2).
  exists (evs1 ++ evs2). simpl. rewrite app_assoc. split; [done|].
  clear -H1 H2. induction evs1 as [|e evs1 IH]; simpl in *; [done|].
  destruct (is_send e); [done|]. by apply IH.
Qed.

Lemma only_logs_log e : is_send e = false → preserves only_logs (log e).
Proof.
  intros He w. exists [e]. split; [done|]. simpl. by rewrite He.
Qed.

#[local] Instance producer_refl : Reflexive producer.
Proof. intros w. split_and!; [done..|]. exists []. by rewrite app_nil_r. Qed.

#[local] Instance producer_trans : Transitive producer.
Proof.
  intros w1 w2 w3 (Hc1 & Ht1 & a1 & Hf1) (Hc2 & Ht2 & a2 & Hf2).
  split_and!; [congruence..|]. exists (a1 ++ a2).
  by rewrite Hf2, Hf1, app_assoc.
Qed.

Lemma producer_modify (f : World → World) :
  (∀ w, request_retry_count (f w) = request_retry_count w
        ∧ request_retry_timer (f w) = request_retry_timer w
        ∧ requests_fifo (f w) = requests_fifo w) →
  preserves producer (modify f).
Proof.
  intros Hf w. destruct (Hf w) as (Hc & Ht & Hq). simpl.
  split_and!; [done..|]. exists []. by rewrite app_nil_r.
Qed.

Lemma producer_log e : preserves producer (log e).
Proof. by apply producer_modify. Qed.

Lemma producer_mutate p f : preserves producer (mutate p f).
Proof. by apply producer_modify. Qed.

Lemma producer_saveConnector cid : preserves producer (saveConnector cid).
Proof.
  intros w. unfold saveConnector.
  destruct (Connectors.getConnector _ _) as [[? c]|]; simpl; [|reflexivity].
  split_and!; [done..|]. exists []. by rewrite app_nil_r.
Qed.

Lemma producer_now env : preserves producer (DateTime_now env).
Proof.
  intros w. simpl. split_and!; [done..|]. exists []. by rewrite app_nil_r.
Qed.

Lemma producer_fifo_push e : preserves producer (fifo_push e).
Proof.
  apply preserves_bind_any; [apply _| |intros _; apply producer_log].
  intros w. simpl. split_and!; [done..|]. by exists [e].
Qed.

Lemma producer_msg_sender_call env act pl fifo :
  preserves producer (msg_sender_call env act pl fifo).
Proof.
  unfold msg_sender_call.
  apply preserves_bind_any; [apply _|apply preserves_gets_any; apply _|]. intros w0.
  apply preserves_bind_any; [apply _|apply producer_log|]. intros _.
  apply preserves_bind_any; [apply _|by apply producer_modify|]. intros _.
  apply preserves_bind_any;
    [apply _| |intros _; apply preserves_ret_any; apply _].
  apply preserves_when_any; [apply _|apply producer_fifo_push].
Qed.

Lemma producer_clearReservation env cid :
  preserves producer (reservation_clearReservation env cid).
Proof.
  unfold reservation_clearReservation.
  apply preserves_bind_any; [apply _|apply producer_log|]. intros _.
  apply preserves_bind_any; [apply _|apply preserves_gets_any; apply _|].
  intros [[p c]|]; [apply producer_mutate | apply preserves_ret_any; apply _].
Qed.

(** One step through a member function, for a relation that is
    reflexive and transitive; [tac] deals with the calls. *)
Ltac frame_step tac :=
  match goal with
  | |- preserves _ (mret _) => apply preserves_ret_any; apply _
  | |- preserves _ (_ ≫= _) =>
      apply preserves_bind_any; [apply _| |intros ?]
  | |- preserves _ (gets _) => apply preserves_gets_any; apply _
  | |- preserves _ (getConnector _) => apply preserves_gets_any; apply _
  | |- preserves _ (deref _ _) => apply preserves_gets_any; apply _
  | |- preserves _ (when _ _) => apply preserves_when_any; [apply _|]
  | |- preserves _ (if decide ?P then _ else _) => destruct (decide P)
  | |- preserves _ (if ?b then _ else _) => destruct b
  | |- preserves _ (match ?x with _ => _ end) => destruct x
  | |- preserves _ (let '(_, _) := ?x in _) => destruct x
  | |- preserves _ _ => tac
  end.

Ltac producer_call :=
  first [ apply producer_log | apply producer_mutate
        | apply producer_saveConnector | apply producer_now
        | apply producer_msg_sender_call | apply producer_clearReservation ].

Ltac only_logs_call := apply only_logs_log; reflexivity.

Lemma only_logs_remote_start env request :
  preserves only_logs (handleMessage_RemoteStartTransactionReq env request).
Proof.
  unfold handleMessage_RemoteStartTransactionReq,
    reservation_isTransactionAllowed.
  repeat frame_step only_logs_call.
Qed.

Lemma only_logs_remote_stop env request :
  preserves only_logs (handleMessage_RemoteStopTransactionReq env request).
Proof.
  unfold handleMessage_RemoteStopTransactionReq.
  repeat frame_step only_logs_call.
Qed.

Lemma producer_startTransaction env cid tag :
  preserves producer (startTransaction env cid tag).
Proof.
  unfold startTransaction, check_reservations,
    reservation_isTransactionAllowed, events_getTxStartStopMeterValue.
  repeat frame_step producer_call.
Qed.

Lemma producer_stopTransaction env cid tag reason :
  preserves producer (stopTransaction env cid tag reason).
Proof.
  unfold stopTransaction, events_getTxStartStopMeterValue.
  repeat frame_step producer_call.
Qed.

(** X9. The handlers of the remote start and remote stop requests only
    write to the log, and make no call of the message sender: the
    connectors, the database, the FIFO, the retry counter and timer are
    as before. The transaction is neither started nor stopped by
    them. *)
Theorem remote_handlers_only_log env w start_request stop_request :
  only_logs w (handleMessage_RemoteStartTransactionReq env start_request w).2
  ∧ only_logs w (handleMessage_RemoteStopTransactionReq env stop_request w).2.
Proof.
  split; [apply only_logs_remote_start | apply only_logs_remote_stop].
Qed.

(** X10. [startTransaction] and [stopTransaction] never pop the FIFO nor
    touch the retry counter or the retry timer: the FIFO after the call
    is the FIFO before it, followed by what the call queued. *)
Theorem start_stop_only_queue env w connector_id id_tag reason :
  producer w (startTransaction env connector_id id_tag w).2
  ∧ producer w (stopTransaction env connector_id id_tag reason w).2.
Proof.
  split; [apply producer_startTransaction | apply producer_stopTransaction].
Qed.

(** ** The drainer only consumes *)

#[local] Instance consumer_refl : Reflexive consumer.
Proof. intros w. split_and!; [done..|]. by exists 0. Qed.

#[local] Instance consumer_trans : Transitive consumer.
Proof.
  intros w1 w2 w3 (Hc1 & Hd1 & Hr1 & k1 & Hf1) (Hc2 & Hd2 & Hr2 & k2 & Hf2).
  split_and!; [congruence..|]. exists (k1 + k2).
  by rewrite Hf2, Hf1, drop_drop.
Qed.

Lemma turn_consumer env w : consumer w (turn env w).
Proof.
  unfold turn. destruct (requests_fifo w) as [|e rest] eqn:Hfifo.
  - rewrite process_request_empty by done. reflexivity.
  - rewrite (process_request_head _ _ _ _ Hfifo).
    destruct (send_request_fields env e w)
      as (Hc & Hd & Hf & _ & _ & Hr & _).
    destruct (handle_result_fields env (send_request env e w).1
                (send_request env e w).2)
      as (Hc' & Hd' & _ & Hr' & _ & [[_ Hpop]|(_ & _ & Hf' & _)]).
    + split_and!; [congruence..|]. exists 1.
      rewrite Hpop. simpl. by rewrite Hf, Hfifo.
    + split_and!; [congruence..|]. exists 0.
      rewrite Hf', Hf, Hfifo. done.
Qed.

Lemma do_while_consumer env fuel w : consumer w (do_while env fuel w).2.
Proof.
  revert w. induction fuel as [|fuel IH]; intros w;
    rewrite do_while_unfold; simpl;
    destruct (loops (turn env w)); simpl; try apply turn_consumer.
  etrans; [apply turn_consumer | apply IH].
Qed.

Lemma processFifoRequest_consumer env w :
  consumer w (processFifoRequest env w).2.
Proof.
  rewrite processFifoRequest_run. simpl.
  destruct (connected w); [|reflexivity].
  destruct (decide _); [apply do_while_consumer|].
  split_and!; [done..|]. by exists 0.
Qed.

(** X11. [processFifoRequest], alone or run by [updateConnectionStatus]
    or by the callback of the retry timer, never pushes to the FIFO: the
    FIFO after it is the FIFO before it without some requests at its
    front. It changes neither the connectors nor their saved records: a
    connector that holds the provisional transaction id -1 still holds
    it after its StartTransaction request was sent and answered. *)
Theorem drainer_only_consumes env w is_connected :
  consumer w (processFifoRequest env w).2
  ∧ consumer w (updateConnectionStatus env is_connected w).2
  ∧ consumer w (retry_timer_callback env w).2.
Proof.
  split_and!.
  - apply processFifoRequest_consumer.
  - unfold updateConnectionStatus, fifo_size, gets. exec.
    destruct is_connected; [|reflexivity].
    destruct (decide _); [apply processFifoRequest_consumer | reflexivity].
  - unfold retry_timer_callback, modify. exec.
    destruct (processFifoRequest_consumer env
                (set_request_retry_timer None w)) as (? & ? & ? & k & ?).
    split_and!; [done..|]. by exists k.
Qed.

(** ** The do-while ends *)

Lemma do_while_fuel env fuel fuel' w :
  length (requests_fifo w) ≤ fuel →
  length (requests_fifo w) ≤ fuel' →
  do_while env fuel w = do_while env fuel' w.
Proof.
  revert fuel' w. induction fuel as [|fuel IH]; intros fuel' w Hle Hle';
    rewrite (do_while_unfold env _ w), (do_while_unfold env fuel' w); simpl;
    destruct (loops (turn env w)) eqn:Hloop; try done;
    apply turn_shortens in Hloop.
  - lia.
  - destruct fuel' as [|fuel']; [lia|]. apply IH; lia.
Qed.

Lemma do_while_exit env fuel w :
  (do_while env fuel w).1 = true → loops (do_while env fuel w).2 = false.
Proof.
  revert w. induction fuel as [|fuel IH]; intros w;
    rewrite do_while_unfold; simpl;
    destruct (loops (turn env w)) eqn:Hloop; simpl; try done.
  apply IH.
Qed.

(** X12. The do-while of [processFifoRequest] ends: it never needs more
    turns than the FIFO has requests, and allowing more changes nothing.
    When [processFifoRequest] returns after going through the loop, the
    FIFO is empty, or the retry timer is started, or the link is down;
    it never leaves requests behind with the link up and no timer to
    come back to them. *)
Theorem drain_loop_ends env w :
  (do_while env (length (requests_fifo w)) w).1 = true
  ∧ (∀ fuel, length (requests_fifo w) ≤ fuel →
       do_while env fuel w = do_while env (length (requests_fifo w)) w)
  ∧ (connected w = true →
     registration_status w = RegistrationStatus.Accepted →
     let w' := (processFifoRequest env w).2 in
     requests_fifo w' = []
     ∨ is_Some (request_retry_timer w')
     ∨ connected w' = false).
Proof.
  split_and!.
  - apply do_while_ends.
  - intros fuel Hle. by apply do_while_fuel.
  - intros Hup Hreg w'. subst w'. rewrite processFifoRequest_run. simpl.
    rewrite Hup, decide_True by done.
    pose proof (do_while_exit env _ w (do_while_ends env w)) as Hexit.
    unfold loops in Hexit.
    set (w' := (do_while env (length (requests_fifo w)) w).2) in *.
    destruct (requests_fifo w') as [|e rest]; [by left|].
    destruct (request_retry_timer w'); [right; left; eauto|].
    destruct (connected w'); [|by right; right].
    rewrite bool_decide_eq_true_2 in Hexit by done.
    rewrite (bool_decide_eq_false_2 (is_Some None)) in Hexit
      by (by intros [? ?]).
    done.
Qed.

(** The link is up but every call fails: the drainer stops at the first
    request with the retry timer started. *)
Lemma drain_loop_ends_witness :
  let env := station failing always_allowed true true in
  let e := {| action := METER_VALUES_ACTION; payload := PMeterValues "1" |} in
  let w := world_with idle_connectors [e; e] true RegistrationStatus.Accepted in
  let w' := (processFifoRequest env w).2 in
  requests_fifo w' = []
  ∨ is_Some (request_retry_timer w')
  ∨ connected w' = false.
Proof.
  intros env e w.
  apply (proj2 (proj2 (drain_loop_ends env w))); reflexivity.
Defined.

(** ** A drain with the network up *)

Lemma filter_send_bookkeeping bk :
  Forall bookkeeping bk → List.filter is_send bk = [].
Proof.
  induction 1 as [|e bk [He _] _ IH]; simpl; [done|]. by rewrite He.
Qed.

Lemma count_pop_bookkeeping bk :
  Forall bookkeeping bk → count_events is_pop bk = 0.
Proof.
  induction 1 as [|e bk [_ He] _ IH]; simpl; [done|]. by rewrite He.
Qed.

Lemma count_events_app f l1 l2 :
  count_events f (l1 ++ l2) = count_events f l1 + count_events f l2.
Proof. induction l1 as [|e l1 IH]; simpl; [done|]. rewrite IH. lia. Qed.

Lemma turn_success env w e rest :
  requests_fifo w = e :: rest →
  known_action (action e) →
  connected w = true →
  registration_status w = RegistrationStatus.Accepted →
  result (net env (calls w)) = CallResult.Ok →
  connected_after (net env (calls w)) = true →
  let w1 := turn env w in
  requests_fifo w1 = rest
  ∧ request_retry_count w1 = 0%N
  ∧ request_retry_timer w1 = request_retry_timer w
  ∧ connected w1 = true
  ∧ registration_status w1 = RegistrationStatus.Accepted
  ∧ calls w1 = S (calls w)
  ∧ ∃ bk, Forall bookkeeping bk
          ∧ trace w1 = trace w ++ drainer_call e :: bk ++ [EvFifoPop].
Proof.
  intros Hfifo Hk Hup Hreg Hok Hafter w1. subst w1. unfold turn.
  rewrite (process_request_head _ _ _ _ Hfifo).
  rewrite send_request_known by done. simpl fst. simpl snd.
  rewrite Hok, handle_result_ok. simpl.
  rewrite Hfifo, Hup, Hreg, Hafter. split_and!; [done..|].
  eexists. split; [|by rewrite <- app_assoc].
  destruct (decide _); [apply start_response_bookkeeping | constructor].
Qed.

Lemma do_while_success env l :
  ∀ fuel w,
    requests_fifo w = l →
    length l ≤ fuel →
    connected w = true →
    registration_status w = RegistrationStatus.Accepted →
    request_retry_timer w = None →
    network_up_from env (calls w) →
    Forall (λ e, known_action (action e)) l →
    let w' := (do_while env fuel w).2 in
    requests_fifo w' = []
    ∧ (l ≠ [] → request_retry_count w' = 0%N)
    ∧ calls w' = calls w + length l
    ∧ ∃ evs, trace w' = trace w ++ evs
             ∧ List.filter is_send evs = map drainer_call l
             ∧ count_events is_pop evs = length l.
Proof.
  induction l as [|e rest IH]; intros fuel w Hfifo Hlen Hup Hreg Htimer Hnet
    Hknown w'; subst w'; rewrite do_while_unfold; simpl.
  - unfold turn. rewrite process_request_empty by done. simpl.
    unfold loops. rewrite Hfifo. simpl.
    split_and!; [done | done | lia |]. exists []. by rewrite app_nil_r.
  - apply Forall_cons in Hknown as [Hk Hknown].
    destruct (Hnet (calls w) ltac:(lia)) as [Hok Hafter].
    destruct (turn_success env w e rest Hfifo Hk Hup Hreg Hok Hafter)
      as (Hf1 & Hc1 & Ht1 & Hup1 & Hreg1 & Hcalls1 & bk & Hbk & Htr1).
    unfold loops. rewrite Hf1, Ht1, Htimer, Hup1.
    assert (Hevs : List.filter is_send (drainer_call e :: bk ++ [EvFifoPop])
                   = [drainer_call e]
                   ∧ count_events is_pop (drainer_call e :: bk ++ [EvFifoPop])
                     = 1).
    { simpl. rewrite List.filter_app, filter_send_bookkeeping by done.
      rewrite count_events_app, count_pop_bookkeeping by done. done. }
    destruct Hevs as [Hsends Hpops].
    destruct rest as [|e' rest'].
    + simpl. split_and!; [done | done | simpl; lia |].
      eexists. split; [exact Htr1|]. done.
    + rewrite bool_decide_eq_true_2 by done.
      rewrite (bool_decide_eq_false_2 (is_Some None)) by (by intros [? ?]).
      simpl. destruct fuel as [|fuel]; [simpl in Hlen; lia|].
      destruct (IH fuel (turn env w) Hf1 ltac:(simpl in *; lia) Hup1 Hreg1
                  ltac:(congruence)
                  ltac:(intros k Hk'; apply Hnet; lia) Hknown)
        as (Hf2 & Hc2 & Hcalls2 & evs & Htr2 & Hs2 & Hp2).
      split_and!; [done | intros _; by apply Hc2 | simpl in *; lia |].
      exists ((drainer_call e :: bk ++ [EvFifoPop]) ++ evs).
      rewrite Htr2, Htr1, <- app_assoc. split; [done|].
      rewrite List.filter_app, count_events_app, Hsends, Hs2, Hpops, Hp2.
      done.
Qed.

(** X13. With the link up, the charge point registered, the retry timer
    stopped, and a network that answers every call while leaving the
    link up, one [processFifoRequest] empties a FIFO of StartTransaction,
    StopTransaction and MeterValues requests: it makes one call per
    request, in the order of the FIFO, pops as many requests, and leaves
    the retry counter at 0. *)
Theorem drain_all_in_order env w :
  connected w = true →
  registration_status w = RegistrationStatus.Accepted →
  request_retry_timer w = None →
  network_up_from env (calls w) →
  Forall (λ e, known_action (action e)) (requests_fifo w) →
  let w' := (processFifoRequest env w).2 in
  requests_fifo w' = []
  ∧ (requests_fifo w ≠ [] → request_retry_count w' = 0%N)
  ∧ calls w' = calls w + length (requests_fifo w)
  ∧ ∃ evs, trace w' = trace w ++ evs
           ∧ List.filter is_send evs = map drainer_call (requests_fifo w)
           ∧ count_events is_pop evs = length (requests_fifo w).
Proof.
  intros Hup Hreg Htimer Hnet Hknown w'. subst w'.
  rewrite processFifoRequest_run. simpl.
  rewrite Hup, decide_True by done.
  by apply do_while_success.
Qed.

(** A StartTransaction, a MeterValues and a StopTransaction request wait
    in the FIFO when the link comes back. *)
Lemma drain_all_in_order_witness :
  let env := station (answering AuthorizationStatus.Accepted 42%Z)
               always_allowed true true in
  let fifo :=
    [{| action := START_TRANSACTION_ACTION;
        payload := PStartTransaction (StartTransactionReq_default env) |};
     {| action := METER_VALUES_ACTION; payload := PMeterValues "{}" |};
     {| action := STOP_TRANSACTION_ACTION; payload := PRaw "{}" |}] in
  let w := world_with idle_connectors fifo true RegistrationStatus.Accepted in
  let w' := (processFifoRequest env w).2 in
  requests_fifo w' = []
  ∧ (requests_fifo w ≠ [] → request_retry_count w' = 0%N)
  ∧ calls w' = calls w + length (requests_fifo w)
  ∧ ∃ evs, trace w' = trace w ++ evs
           ∧ List.filter is_send evs = map drainer_call (requests_fifo w)
           ∧ count_events is_pop evs = length (requests_fifo w).
Proof.
  intros env fifo w.
  apply (drain_all_in_order env w); [reflexivity.. | | ].
  - intros k _. split; reflexivity.
  - unfold known_action.
    constructor; [by left|]. constructor; [by right; right|].
    constructor; [by right; left|]. constructor.
Defined.

(** ** The retry counter along the life of the manager *)

Lemma counter_inv_producer env w w' :
  producer w w' → counter_inv env w → counter_inv env w'.
Proof.
  intros (Hc & _ & added & Hf) [Hmax Hempty]. split; [by rewrite Hc|].
  rewrite Hc, Hf. intros [Hnil _]%app_eq_nil. auto.
Qed.

Lemma counter_inv_same env w w' :
  request_retry_count w' = request_retry_count w →
  requests_fifo w' = requests_fifo w →
  counter_inv env w → counter_inv env w'.
Proof. intros Hc Hf [Hmax Hempty]. split; rewrite Hc, ?Hf; done. Qed.

Lemma turn_counter_inv env w : counter_inv env w → counter_inv env (turn env w).
Proof.
  intros Hinv. unfold turn.
  destruct (requests_fifo w) as [|e rest] eqn:Hfifo.
  - by rewrite process_request_empty.
  - rewrite (process_request_head _ _ _ _ Hfifo).
    destruct (send_request_fields env e w) as (_ & _ & Hf & _).
    destruct (handle_result_fields env (send_request env e w).1
                (send_request env e w).2)
      as (_ & _ & _ & _ & _ & [[_ ->]|(_ & Hle & Hf' & Hc' & _)]).
    + split; simpl; [lia | done].
    + split; [by rewrite Hc'|]. rewrite Hf', Hf, Hfifo. done.
Qed.

Lemma do_while_counter_inv env fuel w :
  counter_inv env w → counter_inv env (do_while env fuel w).2.
Proof.
  revert w. induction fuel as [|fuel IH]; intros w Hinv;
    rewrite do_while_unfold; simpl;
    destruct (loops (turn env w)); simpl; auto using turn_counter_inv.
Qed.

Lemma processFifoRequest_counter_inv env w :
  counter_inv env w → counter_inv env (processFifoRequest env w).2.
Proof.
  intros Hinv. rewrite processFifoRequest_run. simpl.
  destruct (connected w); [|done].
  destruct (decide _); [by apply do_while_counter_inv|].
  by eapply counter_inv_same; [| |exact Hinv].
Qed.

Lemma apply_op_counter_inv env op w :
  counter_inv env w → counter_inv env (apply_op env op w).2.
Proof.
  intros Hinv.
  assert (Hq : ∀ A (m : St A),
             preserves producer m → counter_inv env ((m ;; mret tt) w).2).
  { intros A m Hm. eapply counter_inv_producer; [|exact Hinv].
    apply (preserves_bind_any producer m (λ _, mret tt)); [done|].
    intros _. apply preserves_ret_any; apply _. }
  assert (Hl : ∀ A (m : St A),
             preserves only_logs m → counter_inv env ((m ;; mret tt) w).2).
  { intros A m Hm.
    destruct (preserves_bind_any only_logs m (λ _, mret tt) Hm
                ltac:(intros ?; apply preserves_ret_any; apply _) w)
      as (evs & Heq & _).
    rewrite Heq. by eapply counter_inv_same; [| |exact Hinv]. }
  destruct op; simpl.
  - apply Hq, producer_startTransaction.
  - apply Hq, producer_stopTransaction.
  - apply Hl, only_logs_remote_start.
  - apply Hl, only_logs_remote_stop.
  - by apply processFifoRequest_counter_inv.
  - done.
  - unfold updateConnectionStatus, mbind, St_bind, fifo_size, gets.
    simpl. destruct is_connected; [|done]. destruct (decide _); [|done].
    by apply processFifoRequest_counter_inv.
  - done.
  - unfold retry_timer_callback, timer_isStarted, mbind, St_bind, modify, gets.
    simpl. destruct (bool_decide _); [|done].
    by apply processFifoRequest_counter_inv.
  - eapply counter_inv_producer; [apply producer_fifo_push | exact Hinv].
Qed.

(** X14. From its construction on and whatever happens to it, the
    transaction manager keeps its retry counter within
    TransactionMessageAttempts, and at 0 whenever the FIFO is empty: a
    request queued in an empty FIFO never inherits failures counted for
    another one. *)
Theorem retry_counter_invariant env cs db fifo up registration ops :
  counter_inv env
    (run env ops (TransactionManager_new cs db fifo up registration)).
Proof.
  assert (Hinit : counter_inv env
                    (TransactionManager_new cs db fifo up registration)).
  { split; simpl; [lia | done]. }
  revert Hinit. generalize (TransactionManager_new cs db fifo up registration).
  induction ops as [|op ops IH]; intros w Hinv; simpl; [done|].
  by apply IH, apply_op_counter_inv.
Qed.

(** ** updateConnectionStatus *)

Lemma processFifoRequest_gated env w :
  ∃ evs, trace (processFifoRequest env w).2 = trace w ++ evs
         ∧ Forall gated evs.
Proof.
  rewrite processFifoRequest_run. simpl.
  destruct (connected w) eqn:Hup.
  - destruct (decide (registration_status w = RegistrationStatus.Accepted))
      as [Hreg|Hreg].
    + by apply do_while_gated.
    + eexists. split; [reflexivity|]. repeat constructor.
  - exists []. by rewrite app_nil_r.
Qed.

(** X15. [updateConnectionStatus] leaves the state as it is when it is
    told that the link is down, when the FIFO is empty, and when it is
    told that the link is up while the message sender says it is not:
    its argument does not stand for the state of the link. Every call it
    leads to is made with the link up and the charge point registered. *)
Theorem update_connection_status_gated env w is_connected :
  let w' := (updateConnectionStatus env is_connected w).2 in
  (is_connected = false ∨ requests_fifo w = [] ∨ connected w = false →
   w' = w)
  ∧ ∃ evs, trace w' = trace w ++ evs ∧ Forall gated evs.
Proof.
  intros w'. subst w'.
  unfold updateConnectionStatus, fifo_size, gets. exec. split.
  - intros H. destruct is_connected; [|done].
    destruct (decide (length (requests_fifo w) ≠ 0)) as [Hne|]; [|done].
    destruct H as [|[Hnil|Hdown]]; [done | by rewrite Hnil in Hne |].
    rewrite processFifoRequest_run. simpl. by rewrite Hdown.
  - destruct is_connected; [|exists []; by rewrite app_nil_r].
    destruct (decide _); [apply processFifoRequest_gated|].
    exists []. by rewrite app_nil_r.
Qed.

(** The charge point reports the link up, requests are waiting, but the
    message sender is not connected. *)
Lemma update_connection_status_gated_witness :
  let env := station offline always_allowed true true in
  let e := {| action := METER_VALUES_ACTION; payload := PMeterValues "{}" |} in
  let w := world_with idle_connectors [e] false RegistrationStatus.Accepted in
  (updateConnectionStatus env true w).2 = w.
Proof.
  intros env e w.
  apply (proj1 (update_connection_status_gated env w true)).
  right. right. reflexivity.
Defined.

(** ** A failed send *)

(** X16. When the send of the request at the head of the FIFO fails and
    the retry counter, once incremented, is still within
    TransactionMessageAttempts, [processFifoRequest] stops there: it has
    made that one call, the request is still at the head, the counter is
    one more, and the retry timer is started with
    TransactionMessageRetryInterval seconds if the link is still up; if
    the link went down the timer is left as it was. *)
Theorem failed_send_backs_off env w e rest :
  connected w = true →
  registration_status w = RegistrationStatus.Accepted →
  requests_fifo w = e :: rest →
  known_action (action e) →
  result (net env (calls w)) = CallResult.Failed →
  (request_retry_count w + 1 ≤ transactionMessageAttempts env)%N →
  let o := net env (calls w) in
  let w' := (processFifoRequest env w).2 in
  calls w' = S (calls w)
  ∧ requests_fifo w' = e :: rest
  ∧ request_retry_count w' = (request_retry_count w + 1)%N
  ∧ connected w' = connected_after o
  ∧ request_retry_timer w'
    = (if connected_after o
       then Some (Seconds (transactionMessageRetryInterval env))
       else request_retry_timer w).
Proof.
  intros Hup Hreg Hfifo Hk Hfail Hle o w'. subst w'.
  rewrite processFifoRequest_run. simpl.
  rewrite Hup, decide_True by done.
  rewrite do_while_unfold.
  assert (Hturn :
    let w1 := turn env w in
    calls w1 = S (calls w)
    ∧ requests_fifo w1 = e :: rest
    ∧ request_retry_count w1 = (request_retry_count w + 1)%N
    ∧ connected w1 = connected_after o
    ∧ request_retry_timer w1
      = (if connected_after o
         then Some (Seconds (transactionMessageRetryInterval env))
         else request_retry_timer w)).
  { unfold turn. rewrite (process_request_head _ _ _ _ Hfifo).
    rewrite send_request_known by done. simpl fst. simpl snd.
    rewrite Hfail, handle_result_failed. simpl.
    rewrite (proj2 (N.ltb_ge _ _)) by lia. subst o.
    destruct (connected_after (net env (calls w))); simpl; by rewrite Hfifo. }
  simpl in Hturn. destruct Hturn as (Hc & Hf & Hn & Hu & Ht).
  assert (Hloop : loops (turn env w) = false).
  { unfold loops. rewrite Ht, Hu.
    destruct (connected_after o); [|by rewrite andb_false_r].
    rewrite (bool_decide_eq_true_2 (is_Some (Some _))) by eauto.
    simpl. by rewrite andb_false_r. }
  simpl. rewrite Hloop.
  by destruct (length (requests_fifo w)).
Qed.

(** Scenario S3 of the specification, its first failure. *)
Lemma failed_send_backs_off_witness :
  let env := station failing always_allowed true true in
  let e := {| action := METER_VALUES_ACTION; payload := PMeterValues "1" |} in
  let w := world_with idle_connectors [e] true RegistrationStatus.Accepted in
  let o := net env (calls w) in
  let w' := (processFifoRequest env w).2 in
  calls w' = S (calls w)
  ∧ requests_fifo w' = [e]
  ∧ request_retry_count w' = (request_retry_count w + 1)%N
  ∧ connected w' = connected_after o
  ∧ request_retry_timer w'
    = (if connected_after o
       then Some (Seconds (transactionMessageRetryInterval env))
       else request_retry_timer w).
Proof.
  intros env e w.
  apply (failed_send_backs_off env w e []);
    [reflexivity | reflexivity | reflexivity | | reflexivity | ].
  - right. right. reflexivity.
  - vm_compute. discriminate.
Defined.
